(** * run_flights_sql.py: the dump-file runner

    A shallow embedding of
    [Relational Database Administration/PostgreSQL/run_flights_sql.py]:
    [split_sql_statements], [execute_sql_statements] and [execute_sql_file],
    with the regular expressions of the script written out as
    matchers over lists of characters, and the database as an explicit
    trace of operations.

    Python [str] is modelled as [list ascii]: a text is a sequence of code
    points below 256, with the character classes Python gives them
    ([str.isspace], which both [str.strip] and the pattern [\s] use, and
    the alphanumerics of [\w]). *)

From Stdlib Require Import List Ascii String NArith Bool Arith Lia.
Import ListNotations.



(** ** Characters and texts *)

Definition text := list ascii.

Definition str (s : string) : text := list_ascii_of_string s.

Definition code (c : ascii) : N := N_of_ascii c.

Definition between (lo hi : N) (c : ascii) : bool :=
  ((lo <=? code c) && (code c <=? hi))%N.

Definition nl : ascii := ascii_of_N 10.
Definition semicolon : ascii := ";"%char.
Definition dollar : ascii := "$"%char.
Definition backslash : ascii := ascii_of_N 92.
Definition dot : ascii := "."%char.

Definition ascii_eqb (a b : ascii) : bool := Ascii.eqb a b.

(** [str.isspace] on one character: TAB..CR, FS..US, SPACE, NEL, NBSP. *)
Definition is_space (c : ascii) : bool :=
  between 9 13 c || between 28 32 c
  || (code c =? 133)%N || (code c =? 160)%N.

(** The class [\w] of a [str] pattern: alphanumeric or underscore. *)
Definition is_word (c : ascii) : bool :=
  between 48 57 c || between 65 90 c || between 97 122 c
  || (code c =? 95)%N
  || (code c =? 170)%N || (code c =? 178)%N || (code c =? 179)%N
  || (code c =? 181)%N || (code c =? 185)%N || (code c =? 186)%N
  || between 188 190 c || between 192 214 c || between 216 246 c
  || between 248 255 c.

(** [str.lower] on one character. *)
Definition lower (c : ascii) : ascii :=
  if between 65 90 c || between 192 214 c || between 216 222 c
  then ascii_of_N (code c + 32) else c.

(** Equality of characters under [re.IGNORECASE]. *)
Definition ci_eqb (a b : ascii) : bool := ascii_eqb (lower a) (lower b).

Fixpoint text_eqb (a b : text) : bool :=
  match a, b with
  | [], [] => true
  | x :: a', y :: b' => ascii_eqb x y && text_eqb a' b'
  | _, _ => false
  end.

Fixpoint drop_while (p : ascii -> bool) (s : text) : text :=
  match s with
  | [] => []
  | c :: s' => if p c then drop_while p s' else s
  end.

Fixpoint take_while (p : ascii -> bool) (s : text) : text :=
  match s with
  | [] => []
  | c :: s' => if p c then c :: take_while p s' else []
  end.

(** [s.strip()] *)
Definition strip (s : text) : text :=
  rev (drop_while is_space (rev (drop_while is_space s))).

(** The truth value of [s.strip()]: false exactly for the empty string. *)
Definition nonblank (s : text) : bool :=
  match strip s with [] => false | _ :: _ => true end.

(** [s.startswith(p)], with the character comparison as a parameter. *)
Fixpoint starts_with (eq : ascii -> ascii -> bool) (p s : text) : bool :=
  match p, s with
  | [], _ => true
  | x :: p', y :: s' => eq x y && starts_with eq p' s'
  | _ :: _, [] => false
  end.

(** [s.endswith(p)] *)
Definition ends_with (p s : text) : bool :=
  starts_with ascii_eqb (rev p) (rev s).

(** [sub in s] *)
Fixpoint contains (sub s : text) : bool :=
  starts_with ascii_eqb sub s ||
  match s with
  | [] => false
  | _ :: s' => contains sub s'
  end.

(** [s.split('\n')] *)
Fixpoint split_lines (s : text) : list text :=
  match s with
  | [] => [[]]
  | c :: s' =>
      if ascii_eqb c nl then [] :: split_lines s'
      else match split_lines s' with
           | l :: ls => (c :: l) :: ls
           | [] => [[c]]
           end
  end.

(** ['\n'.join(ls)] *)
Fixpoint join_lines (ls : list text) : text :=
  match ls with
  | [] => []
  | [l] => l
  | l :: ls' => l ++ nl :: join_lines ls'
  end.

(** ** split_sql_statements *)

(** [re.search(r'(\$[^$]*\$)', line)]: the leftmost match starts at the
    first dollar sign and runs to the next one; [group(1)] is returned. *)
Definition search_dollar_quote (line : text) : option text :=
  match drop_while (fun c => negb (ascii_eqb c dollar)) line with
  | [] => None
  | d :: after =>
      let body := take_while (fun c => negb (ascii_eqb c dollar)) after in
      match drop_while (fun c => negb (ascii_eqb c dollar)) after with
      | [] => None
      | d' :: _ => Some (d :: body ++ [d'])
      end
  end.

(** The local variables of the loop of [split_sql_statements]. *)
Record split_state : Type := SplitState {
  statements : list text;
  current : text;
  dollar_quote : option text
}.

Definition split_init : split_state :=
  {| statements := []; current := []; dollar_quote := None |}.

(** The dollar-quote bookkeeping of one iteration (source lines 154-163). *)
Definition update_dollar_quote (dq : option text) (line : text) : option text :=
  match search_dollar_quote line with
  | Some m =>
      match dq with
      | None => Some m
      | Some tag => if contains tag line then None else Some tag
      end
  | None => dq
  end.

(** One iteration of [for line in sql_text.split('\n')]. *)
Definition split_step (st : split_state) (line : text) : split_state :=
  let dq := update_dollar_quote (dollar_quote st) line in
  let cur := current st ++ line ++ [nl] in
  match dq with
  | None =>
      if ends_with [semicolon] (strip line)
      then {| statements := statements st ++ [cur]; current := [];
              dollar_quote := dq |}
      else {| statements := statements st; current := cur;
              dollar_quote := dq |}
  | Some _ =>
      {| statements := statements st; current := cur; dollar_quote := dq |}
  end.

Definition split_loop (st : split_state) (lines : list text) : split_state :=
  fold_left split_step lines st.

(** The trailing buffer is kept when it is not blank (source lines 172-173). *)
Definition split_finish (st : split_state) : list text :=
  if nonblank (current st) then statements st ++ [current st]
  else statements st.

Definition split_sql_statements (sql_text : text) : list text :=
  split_finish (split_loop split_init (split_lines sql_text)).

(** ** re.split with one capturing group

    [re.split(pattern, s)] for a pattern with a single group that never
    matches the empty string: the text before the leftmost match, the
    group of that match, then the split of the text after the match.
    A matcher [m] tells whether the pattern matches at the very start of
    its argument and, if so, returns the group and the text after the
    match.  The recursion is on a fuel bounded by the length of the text;
    [re_split] gives it that length, which is always enough
    (see [re_split_fuel_adequate], [re_split_match] and [re_split_skip]
    below). *)

Definition matcher := text -> option (text * text).

(** Prepends a character to the first part of a split. *)
Definition cons_first (c : ascii) (parts : list text) : list text :=
  match parts with
  | p :: ps => (c :: p) :: ps
  | [] => [[c]]
  end.

Fixpoint re_split_fuel (m : matcher) (fuel : nat) (s : text) : list text :=
  match fuel, s with
  | _, [] => [[]]
  | O, _ => [s]
  | S fuel', c :: s' =>
      match m s with
      | Some (group, rest) => [] :: group :: re_split_fuel m fuel' rest
      | None => cons_first c (re_split_fuel m fuel' s')
      end
  end.

Definition re_split (m : matcher) (s : text) : list text :=
  re_split_fuel m (List.length s) s.

(** A matcher consumes at least one character. *)
Definition consuming (m : matcher) : Prop :=
  forall s group rest, m s = Some (group, rest) -> List.length rest < List.length s.

(** ** The pattern of the connect directive *)

(** [\\connect\s+(\w+)] at the start of [s]: the group and the rest.
    Both quantifiers are greedy and the two classes are disjoint, so
    the name is the longest run of word characters after the longest
    run of white space. *)
Definition match_connect : matcher := fun s =>
  if starts_with ascii_eqb (str "\connect") s then
    let after := skipn 8 s in
    match after with
    | w :: _ =>
        if is_space w then
          let t := drop_while is_space after in
          match take_while is_word t with
          | [] => None
          | name => Some (name, drop_while is_word t)
          end
        else None
    | [] => None
    end
  else None.

(** [re.split(r'\\connect\s+(\w+)', content)] *)
Definition split_connect (content : text) : list text :=
  re_split match_connect content.

(** ** The patterns of the COPY block *)

Definition not_semicolon (c : ascii) : bool := negb (ascii_eqb c semicolon).

(** The part of the header pattern between [COPY] and the semicolon,
    [\s+[^;]+FROM\s+stdin], against the whole of [body] (which holds no
    semicolon).  Read from the right: [stdin], the white space before it,
    [FROM], and before that at least two characters of which the first
    is white space. *)
Definition copy_header_body (body : text) : bool :=
  let r := rev body in
  starts_with ci_eqb (rev (str "stdin")) r &&
  match skipn 5 r with
  | w :: _ =>
      is_space w &&
      let r2 := drop_while is_space (skipn 5 r) in
      starts_with ci_eqb (rev (str "FROM")) r2 &&
      (2 <=? List.length (skipn 4 r2)) &&
      match body with
      | c :: _ => is_space c
      | [] => false
      end
  | [] => false
  end.

(** [COPY\s+[^;]+FROM\s+stdin;] with [re.IGNORECASE] at the start of [s]:
    the matched header and the rest.  No part of the pattern before
    the final semicolon can match a semicolon, so the match ends at
    the first semicolon after [COPY]. *)
Definition match_copy_header : matcher := fun s =>
  if starts_with ci_eqb (str "COPY") s then
    let after := skipn 4 s in
    let body := take_while not_semicolon after in
    match drop_while not_semicolon after with
    | sc :: rest =>
        if copy_header_body body
        then Some (firstn 4 s ++ body ++ [sc], rest)
        else None
    | [] => None
    end
  else None.

(** [\n\\.\n] at the start of [s] (the pattern is a raw string, and
    [re.DOTALL] is set): a newline, a backslash, any one character,
    a newline. *)
Definition at_terminator (s : text) : option text :=
  match s with
  | a :: b :: _ :: d :: rest =>
      if ascii_eqb a nl && ascii_eqb b backslash && ascii_eqb d nl
      then Some rest else None
  | _ => None
  end.

(** [.*?\n\\.\n]: the lazy quantifier stops at the first terminator. *)
Fixpoint find_terminator (s : text) : option (text * text) :=
  match at_terminator s with
  | Some rest => Some (firstn 4 s, rest)
  | None =>
      match s with
      | [] => None
      | c :: s' =>
          match find_terminator s' with
          | Some (p, r) => Some (c :: p, r)
          | None => None
          end
      end
  end.

(** [(COPY\s+[^;]+FROM\s+stdin;.*?\n\\.\n)] with
    [re.DOTALL | re.IGNORECASE] at the start of [s]. *)
Definition match_copy_block : matcher := fun s =>
  match match_copy_header s with
  | Some (header, rest) =>
      match find_terminator rest with
      | Some (data, rest') => Some (header ++ data, rest')
      | None => None
      end
  | None => None
  end.

(** [re.split(copy_pattern, sql_content, flags=...)] *)
Definition split_copy (sql_content : text) : list text :=
  re_split match_copy_block sql_content.

(** ** The database and the operator's terminal

    The script talks to the outside through [psycopg2] and [print].  A run
    is modelled by the history of these operations, most recent first.
    What the outside answers is given by a [world]: whether the file
    exists and what it holds, and for each connection attempt, statement
    and COPY whether it raises, as a function of the history so far.
    [cursor()], [commit()], [rollback()] and [close()] do not raise. *)

(** An exception: [psycopg2.Error] or any other [Exception], with [str(e)]. *)
Inductive exn : Type :=
| DbError (msg : text)
| OtherError (msg : text).

Definition exn_msg (e : exn) : text :=
  match e with DbError m => m | OtherError m => m end.

Inductive event : Type :=
| EvPrint (msg : text)
| EvConnect (conn : nat) (dbname : text)
| EvConnectFail (dbname : text) (e : exn)
| EvAutocommit (conn : nat)
| EvClose (conn : nat)
| EvCursor (conn : nat)
| EvCursorClose (conn : nat)
| EvExecute (conn : nat) (statement : text) (raised : option exn)
| EvCopy (conn : nat) (copy_command data_str : text) (raised : option exn)
| EvCommit (conn : nat)
| EvRollback (conn : nat).

Definition history := list event.

Record world : Type := World {
  file_content : text -> option text;
  connect_raises : history -> text -> option exn;
  execute_raises : history -> nat -> text -> option exn;
  copy_raises : history -> nat -> text -> text -> option exn
}.

Definition is_connect (e : event) : bool :=
  match e with EvConnect _ _ => true | _ => false end.

(** Connections are numbered in the order in which they are opened. *)
Definition fresh_conn (h : history) : nat :=
  List.length (filter is_connect h).

(** [DB_CONFIG['dbname']] *)
Definition DB_CONFIG_dbname : text := str "postgres".

(** ** execute_sql_statements *)

(** [re.match(r'COPY\s+[^;]+FROM\s+stdin;', part, re.IGNORECASE)] *)
Definition is_copy_part (part : text) : bool :=
  match match_copy_header part with Some _ => true | None => false end.

(** The loop over [lines[1:]] that collects [data_lines]
    (source lines 107-114). *)
Fixpoint copy_data_lines (in_data : bool) (lines : list text) : list text :=
  match lines with
  | [] => []
  | line :: rest =>
      if text_eqb (strip line) [backslash; dot] then []
      else if in_data || nonblank line
           then line :: copy_data_lines true rest
           else copy_data_lines in_data rest
  end.

(** The COPY branch (source lines 101-124): any exception is caught and
    reported. *)
Definition execute_copy (w : world) (h : history) (conn : nat) (part : text)
  : history :=
  let lines := split_lines part in
  let copy_command := hd [] lines in
  let data_str := join_lines (copy_data_lines false (tl lines)) in
  match copy_raises w h conn copy_command data_str with
  | None => EvCommit conn :: EvCopy conn copy_command data_str None :: h
  | Some e =>
      EvPrint (str "Warning: Error executing COPY command: " ++ exn_msg e)
      :: EvCopy conn copy_command data_str (Some e) :: h
  end.

(** ["already exists" in str(e).lower()] *)
Definition already_exists (msg : text) : bool :=
  contains (str "already exists") (map lower msg).

(** The loop over the statements of an ordinary part (source lines
    130-139): a [psycopg2.Error] is caught, any other exception leaves
    the function. *)
Fixpoint execute_statements (w : world) (h : history) (conn : nat)
  (stmts : list text) : history * option exn :=
  match stmts with
  | [] => (h, None)
  | statement :: rest =>
      if nonblank statement then
        match execute_raises w h conn statement with
        | None =>
            execute_statements w
              (EvCommit conn :: EvExecute conn statement None :: h) conn rest
        | Some (DbError msg) =>
            let h1 := EvExecute conn statement (Some (DbError msg)) :: h in
            let h2 := if already_exists msg then h1
                      else EvPrint (str "Warning: " ++ msg) :: h1 in
            execute_statements w (EvRollback conn :: h2) conn rest
        | Some (OtherError msg) =>
            (EvExecute conn statement (Some (OtherError msg)) :: h,
             Some (OtherError msg))
        end
      else execute_statements w h conn rest
  end.

(** The loop [for part in parts] (source lines 96-139). *)
Fixpoint execute_parts (w : world) (h : history) (conn : nat)
  (parts : list text) : history * option exn :=
  match parts with
  | [] => (h, None)
  | part :: rest =>
      if negb (nonblank part) then execute_parts w h conn rest
      else if is_copy_part part
      then execute_parts w (execute_copy w h conn part) conn rest
      else
        match execute_statements w h conn (split_sql_statements part) with
        | (h', None) => execute_parts w h' conn rest
        | (h', Some e) => (h', Some e)
        end
  end.

Definition execute_sql_statements (w : world) (h : history) (conn : nat)
  (sql_content : text) : history * option exn :=
  match execute_parts w (EvCursor conn :: h) conn (split_copy sql_content) with
  | (h', None) => (EvCursorClose conn :: h', None)
  | (h', Some e) => (h', Some e)
  end.

(** ** execute_sql_file *)

(** What the [try] block leaves behind: the history, the variable [conn],
    and the exception that ended it, if any. *)
Record try_result : Type := TryResult {
  tr_history : history;
  tr_conn : option nat;
  tr_raised : option exn
}.

Definition close_if_open (conn : option nat) (h : history) : history :=
  match conn with Some c => EvClose c :: h | None => h end.

Definition connected_msg (dbname : text) : text :=
  str "Connected to database: " ++ dbname.

(** The loop [for i in range(1, len(parts), 2)] over [parts[1:]]: each
    iteration with [i < len(parts) - 1] takes one database name and the
    text that follows it (source lines 51-68). *)
Fixpoint connect_loop (w : world) (h : history) (conn : option nat)
  (parts : list text) : try_result :=
  match parts with
  | new_db :: sql_block :: parts' =>
      let h1 := close_if_open conn h in
      match connect_raises w h1 new_db with
      | Some e => TryResult (EvConnectFail new_db e :: h1) conn (Some e)
      | None =>
          let c := fresh_conn h1 in
          let h2 := EvPrint (connected_msg new_db) :: EvAutocommit c
                    :: EvConnect c new_db :: h1 in
          if nonblank sql_block then
            match execute_sql_statements w h2 c sql_block with
            | (h3, None) => connect_loop w h3 (Some c) parts'
            | (h3, Some e) => TryResult h3 (Some c) (Some e)
            end
          else connect_loop w h2 (Some c) parts'
      end
  | _ => TryResult h conn None
  end.

(** The first part, before any directive (source lines 44-48). *)
Definition first_part (w : world) (h : history) (part0 : text) : try_result :=
  if nonblank part0 then
    match connect_raises w h DB_CONFIG_dbname with
    | Some e => TryResult (EvConnectFail DB_CONFIG_dbname e :: h) None (Some e)
    | None =>
        let c := fresh_conn h in
        let h1 := EvPrint (connected_msg DB_CONFIG_dbname) :: EvAutocommit c
                  :: EvConnect c DB_CONFIG_dbname :: h in
        match execute_sql_statements w h1 c part0 with
        | (h2, r) => TryResult h2 (Some c) r
        end
    end
  else TryResult h None None.

(** The body of the [try] (source lines 43-68). *)
Definition try_body (w : world) (h : history) (parts : list text) : try_result :=
  let r := first_part w h (hd [] parts) in
  match tr_raised r with
  | Some _ => r
  | None => connect_loop w (tr_history r) (tr_conn r) (tl parts)
  end.

(** The [finally] clause (source lines 79-82). *)
Definition finally (conn : option nat) (h : history) : history :=
  match conn with
  | Some c => EvPrint (str "Connection closed.") :: EvClose c :: h
  | None => h
  end.

Definition execute_sql_file (w : world) (h : history) (sql_file_path : text)
  : history * bool :=
  match file_content w sql_file_path with
  | None =>
      (EvPrint (str "Error: File " ++ sql_file_path ++ str " not found!") :: h,
       false)
  | Some content =>
      let h0 := EvPrint (str "Reading SQL file: " ++ sql_file_path) :: h in
      let parts := split_connect content in
      let r := try_body w h0 parts in
      match tr_raised r with
      | None =>
          (finally (tr_conn r)
             (EvPrint (nl :: str "SQL file executed successfully!")
              :: tr_history r), true)
      | Some (DbError msg) =>
          (finally (tr_conn r)
             (EvPrint (nl :: str "Database error: " ++ msg) :: tr_history r),
           false)
      | Some (OtherError msg) =>
          (finally (tr_conn r)
             (EvPrint (nl :: str "Error: " ++ msg) :: tr_history r), false)
      end
  end.

(** * Vocabulary of the properties *)

(** ** Dollar signs, lines and ordinary statements *)

(** The class [[^$]] of the dollar-quote pattern. *)
Definition not_dollar (c : ascii) : bool := negb (ascii_eqb c dollar).

(** A text without a dollar sign. *)
Definition no_dollar (s : text) : Prop := Forall (fun c => c <> dollar) s.

(** The lines, each followed by a newline: what the loop appends to
    [current] for them. *)
Definition with_newlines (ls : list text) : text :=
  List.concat (map (fun l => l ++ [nl]) ls).

(** The text holds a newline, and so is more than one line. *)
Definition has_newline (l : text) : bool :=
  existsb (fun c => ascii_eqb c nl) l.

(** A line of an ordinary statement: no newline inside it and no match of
    the dollar-quote pattern. *)
Definition plain_line (l : text) : bool :=
  negb (has_newline l) &&
  match search_dollar_quote l with None => true | Some _ => false end.

(** [line.strip().endswith(';')] *)
Definition ends_statement (l : text) : bool := ends_with [semicolon] (strip l).

(** An ordinary statement, as its lines: plain lines of which the last,
    and only the last, ends in a semicolon. *)
Fixpoint ordinary_statement (ls : list text) : bool :=
  match ls with
  | [] => false
  | [l] => plain_line l && ends_statement l
  | l :: ls' => plain_line l && negb (ends_statement l) && ordinary_statement ls'
  end.

(** ** Where a pattern matches *)

(** The pattern matches at no position of [s]. *)
Fixpoint matches_nowhere (m : matcher) (s : text) : bool :=
  match m s with
  | Some _ => false
  | None =>
      match s with
      | [] => true
      | _ :: s' => matches_nowhere m s'
      end
  end.

(** In [pre ++ s], the pattern matches at no position inside [pre]. *)
Fixpoint no_match_before (m : matcher) (pre s : text) : bool :=
  match pre with
  | [] => true
  | _ :: pre' =>
      match m (pre ++ s) with
      | Some _ => false
      | None => no_match_before m pre' s
      end
  end.

(** Prepends a text to the first part of a split. *)
Definition prepend (pre : text) (parts : list text) : list text :=
  match parts with
  | p :: ps => (pre ++ p) :: ps
  | [] => [pre]
  end.

(** A directive: the keyword, white space, a name. *)
Definition directive (ws name : text) : text := str "\connect" ++ ws ++ name.

(** Runs of white space and of word characters. *)
Definition all_space (s : text) : bool := forallb is_space s.

Definition all_word (s : text) : bool := forallb is_word s.

(** The name of a directive ends where the text after it starts with a
    character that is not a word character, or is empty. *)
Definition ends_name (rest : text) : bool :=
  match rest with
  | [] => true
  | c :: _ => negb (is_word c)
  end.

(** ** Segments *)

(** The pairs of database name and text that follow the first part:
    [parts[i], parts[i + 1]] for the odd [i] below [len(parts) - 1]. *)
Fixpoint segment_pairs (parts : list text) : list (text * text) :=
  match parts with
  | new_db :: sql_block :: parts' => (new_db, sql_block) :: segment_pairs parts'
  | _ => []
  end.

(** The segments of a file: the first part for the configured database,
    then one for each directive. *)
Definition segments (content : text) : list (text * text) :=
  let parts := split_connect content in
  (DB_CONFIG_dbname, hd [] parts) :: segment_pairs (tl parts).

(** ** What the execution of a segment adds to the history *)

(** [h'] is [h] with newer events on top, all of which satisfy [q]. *)
Definition extends_with (q : event -> bool) (h h' : history) : Prop :=
  exists evs, h' = evs ++ h /\ forallb q evs = true.

(** The event does not touch any connection other than [c], and opens or
    closes none. *)
Definition on_conn (c : nat) (e : event) : bool :=
  match e with
  | EvPrint _ => true
  | EvCursor c' | EvCursorClose c' | EvCommit c' | EvRollback c'
  | EvExecute c' _ _ | EvCopy c' _ _ _ => c' =? c
  | EvConnect _ _ | EvConnectFail _ _ | EvAutocommit _ | EvClose _ => false
  end.

(** What is sent to the server is not blank. *)
Definition sends_nonblank (e : event) : bool :=
  match e with
  | EvExecute _ statement _ => nonblank statement
  | EvCopy _ copy_command _ _ => nonblank copy_command
  | _ => true
  end.

(** The events of the statements of one segment, run on connection [c]. *)
Definition statement_event (c : nat) (e : event) : bool :=
  on_conn c e && sends_nonblank e.

(** ** Open connections *)

(** The connections that are open after a history: opened by a
    successful [connect] and not closed since. *)
Fixpoint open_conns (h : history) : list nat :=
  match h with
  | [] => []
  | EvConnect c _ :: h' => c :: open_conns h'
  | EvClose c :: h' => filter (fun x => negb (x =? c)) (open_conns h')
  | _ :: h' => open_conns h'
  end.

(** At most one connection is open. *)
Definition one_open (h : history) : Prop := List.length (open_conns h) <= 1.

(** [h] is reached from [h0] event by event, and [p] holds of [h0], of [h]
    and of every history in between. *)
Inductive always (p : history -> Prop) (h0 : history) : history -> Prop :=
| always_start : p h0 -> always p h0 h0
| always_step (e : event) (h : history) :
    always p h0 h -> p (e :: h) -> always p h0 (e :: h).

(** The variable [conn] and the open connections: nothing is open, or
    only the connection in [conn] is. *)
Definition conn_tracks (conn : option nat) (h : history) : Prop :=
  open_conns h = [] \/ exists c, conn = Some c /\ open_conns h = [c].

(** The message printed last by the [try] statement: by the end of its
    body or by the handler that caught the exception. *)
Definition outcome_msg (raised : option exn) : text :=
  match raised with
  | None => nl :: str "SQL file executed successfully!"
  | Some (DbError msg) => nl :: str "Database error: " ++ msg
  | Some (OtherError msg) => nl :: str "Error: " ++ msg
  end.

(** No exception was raised. *)
Definition succeeded (raised : option exn) : bool :=
  match raised with None => true | Some _ => false end.

(** ** Exceptions that leave the [try] block *)

(** The two events that end the [try] block with an exception: a failed
    connection attempt, and a statement whose execution raises
    something other than [psycopg2.Error]. *)
Definition escapes (e : event) : bool :=
  match e with
  | EvConnectFail _ _ => true
  | EvExecute _ _ (Some (OtherError _)) => true
  | _ => false
  end.

(** Some event of the history ended the [try] block. *)
Definition escaped (h : history) : bool := existsb escapes h.

(** ** The databases a run connects to *)

(** The databases of the connection attempts, the earliest first. *)
Fixpoint attempted_dbs (h : history) : list text :=
  match h with
  | [] => []
  | EvConnect _ db :: h' => attempted_dbs h' ++ [db]
  | EvConnectFail db _ :: h' => attempted_dbs h' ++ [db]
  | _ :: h' => attempted_dbs h'
  end.

(** The databases a successful run has connected to: the configured one
    if the first part is not blank, then the one of every directive. *)
Definition run_targets (content : text) : list text :=
  let parts := split_connect content in
  (if nonblank (hd [] parts) then [DB_CONFIG_dbname] else [])
  ++ map fst (segment_pairs (tl parts)).


(** The events of one connection: connecting, then the statements of the
    segment, the most recent first. *)
Definition segment_events (c : nat) (db : text) (evs : list event)
  : list event :=
  evs ++ [EvPrint (connected_msg db); EvAutocommit c; EvConnect c db].

(** A header on one line: the keyword in any case of letters, the text up
    to the semicolon as the pattern wants it, the semicolon. *)
Definition copy_header (kw body : text) : text := kw ++ body ++ [semicolon].

Definition is_copy_header (kw body : text) : bool :=
  (List.length kw =? 4) && starts_with ci_eqb (str "COPY") kw
  && forallb not_semicolon body && copy_header_body body
  && negb (has_newline (copy_header kw body)).

(** The line that ends the data of a COPY block. *)
Definition terminator_line : text := [backslash; dot].

(** A data row of a block: one line, which is not the terminator line
    (nor the terminator with white space around it), and which is not
    a backslash alone or a backslash and one more character. *)
Definition data_row (r : text) : bool :=
  negb (has_newline r)
  && negb (text_eqb (strip r) terminator_line)
  && negb (starts_with ascii_eqb [backslash] r && (List.length r <=? 2)).

(** The rows as they stand in the file, each on a line of its own. *)
Definition rows_text (rows : list text) : text :=
  List.concat (map (fun r => nl :: r) rows).

(** A block: the header line, the data rows, the terminator line. *)
Definition copy_block (header : text) (rows : list text) : text :=
  header ++ rows_text rows ++ nl :: terminator_line ++ [nl].

(** The rows without the blank rows at their start. *)
Fixpoint drop_leading_blank (rows : list text) : list text :=
  match rows with
  | [] => []
  | r :: rows' => if nonblank r then rows else drop_leading_blank rows'
  end.

(** What one COPY operation adds to the history. *)
Definition copy_events (w : world) (h : history) (c : nat)
  (copy_command data_str : text) : list event :=
  match copy_raises w h c copy_command data_str with
  | None => [EvCommit c; EvCopy c copy_command data_str None]
  | Some e =>
      [EvPrint (str "Warning: Error executing COPY command: " ++ exn_msg e);
       EvCopy c copy_command data_str (Some e)]
  end.

(** A dump of two functions: the body of the first opens and closes on
    one line, the body of the second runs over several lines. *)
Definition two_functions : list text :=
  [ str "CREATE FUNCTION now() RETURNS int LANGUAGE sql AS $$SELECT 1;$$;";
    str "CREATE FUNCTION f() RETURNS int AS $$";
    str "BEGIN";
    str "  RETURN 1;";
    str "END;";
    str "$$ LANGUAGE plpgsql;" ].

(** ** Concrete worlds and inputs *)

(** A world in which the file holds [content] and nothing raises. *)
Definition quiet_world (content : text) : world :=
  {| file_content := fun _ => Some content;
     connect_raises := fun _ _ => None;
     execute_raises := fun _ _ _ => None;
     copy_raises := fun _ _ _ _ => None |}.

(** A world in which the execution of every statement raises [e]. *)
Definition failing_world (content : text) (e : exn) : world :=
  {| file_content := fun _ => Some content;
     connect_raises := fun _ _ => None;
     execute_raises := fun _ _ _ => Some e;
     copy_raises := fun _ _ _ _ => None |}.

(** A message of the server, a statement and a file name. *)
Definition relation_exists : text := str "relation t already exists".

Definition create_table : text := str "CREATE TABLE t (a int);".

Definition flights_sql : text := str "flights.sql".

(** The statements passed to [cursor.execute] in a history, the earliest
    first. *)
Fixpoint executed (h : history) : list text :=
  match h with
  | [] => []
  | EvExecute _ statement _ :: h' => executed h' ++ [statement]
  | _ :: h' => executed h'
  end.

(** The commands and data of the COPY operations of a history, the
    earliest first. *)
Fixpoint copied (h : history) : list (text * text) :=
  match h with
  | [] => []
  | EvCopy _ copy_command data_str _ :: h' =>
      copied h' ++ [(copy_command, data_str)]
  | _ :: h' => copied h'
  end.

(** The messages printed in a history, the earliest first. *)
Fixpoint printed (h : history) : list text :=
  match h with
  | [] => []
  | EvPrint msg :: h' => printed h' ++ [msg]
  | _ :: h' => printed h'
  end.

(** The header of a COPY block. *)
Definition copy_t : text := copy_header (str "COPY") (str " t (a, b) FROM stdin").

(** ** Statements with a dollar-quoted body *)

(** A statement of a dump, as its lines: an ordinary statement, or a
    statement with a dollar-quoted body, which has lines before the body
    ([head]), the line that opens the body with the tag [$name$] after
    [pre], the lines of the body, and the closing line. *)
Inductive sql_unit : Type :=
| Ordinary (ls : list text)
| DollarBody (head : list text) (pre name rest : text) (body : list text)
    (closing : text).

Definition dollar_tag (name : text) : text := dollar :: name ++ [dollar].

Definition unit_lines (u : sql_unit) : list text :=
  match u with
  | Ordinary ls => ls
  | DollarBody head pre name rest body closing =>
      head ++ (pre ++ dollar_tag name ++ rest) :: body ++ [closing]
  end.

(** The lines before the body are plain and do not end the statement;
    the tag is the first marker of the opening line; no line of the body
    holds the tag; the closing line holds it and ends in a semicolon. *)
Definition unit_ok (u : sql_unit) : bool :=
  match u with
  | Ordinary ls => ordinary_statement ls
  | DollarBody head pre name rest body closing =>
      forallb (fun l => plain_line l && negb (ends_statement l)) head
      && forallb not_dollar pre && forallb not_dollar name
      && forallb (fun l => negb (has_newline l)) (unit_lines u)
      && forallb (fun l => negb (contains (dollar_tag name) l)) body
      && contains (dollar_tag name) closing
      && ends_statement closing
  end.

(** ** A COPY part without the terminator of the pattern *)

(** The lines up to the first one that is the terminator once stripped:
    where the loop over [lines[1:]] reaches its [break]. *)
Fixpoint before_terminator (lines : list text) : list text :=
  match lines with
  | [] => []
  | l :: ls =>
      if text_eqb (strip l) terminator_line then []
      else l :: before_terminator ls
  end.

(** ** The protocol of a run

    The histories the runner can produce, as a transition system over
    the variable [conn], whether that connection is open, and whether an
    exception has left the [try] block.  The events of one statement or
    one COPY operation are added in one step. *)

Definition warning_events (msg : text) : list event :=
  if already_exists msg then [] else [EvPrint (str "Warning: " ++ msg)].

Inductive runner_trace : option nat -> bool -> bool -> history -> Prop :=
| T_start : runner_trace None false false []
| T_print conn o a h msg :
    runner_trace conn o a h -> runner_trace conn o a (EvPrint msg :: h)
| T_close c o a h :
    runner_trace (Some c) o a h ->
    runner_trace (Some c) false a (EvClose c :: h)
| T_connect conn h db :
    runner_trace conn false false h ->
    runner_trace (Some (fresh_conn h)) true false
      (EvAutocommit (fresh_conn h) :: EvConnect (fresh_conn h) db :: h)
| T_connect_fail conn h db e :
    runner_trace conn false false h ->
    runner_trace conn false true (EvConnectFail db e :: h)
| T_cursor c h :
    runner_trace (Some c) true false h ->
    runner_trace (Some c) true false (EvCursor c :: h)
| T_cursor_close c h :
    runner_trace (Some c) true false h ->
    runner_trace (Some c) true false (EvCursorClose c :: h)
| T_execute c h statement :
    runner_trace (Some c) true false h ->
    runner_trace (Some c) true false
      (EvCommit c :: EvExecute c statement None :: h)
| T_execute_db_error c h statement msg :
    runner_trace (Some c) true false h ->
    runner_trace (Some c) true false
      (EvRollback c :: warning_events msg
       ++ EvExecute c statement (Some (DbError msg)) :: h)
| T_execute_other_error c h statement msg :
    runner_trace (Some c) true false h ->
    runner_trace (Some c) true true
      (EvExecute c statement (Some (OtherError msg)) :: h)
| T_copy c h copy_command data_str :
    runner_trace (Some c) true false h ->
    runner_trace (Some c) true false
      (EvCommit c :: EvCopy c copy_command data_str None :: h)
| T_copy_error c h copy_command data_str e :
    runner_trace (Some c) true false h ->
    runner_trace (Some c) true false
      (EvPrint (str "Warning: Error executing COPY command: " ++ exn_msg e)
       :: EvCopy c copy_command data_str (Some e) :: h).

(** An exception was raised. *)
Definition raised (r : option exn) : bool := negb (succeeded r).

(** The number of events of a history that satisfy [p]. *)
Definition count (p : event -> bool) (h : history) : nat :=
  List.length (filter p h).

Definition is_commit (e : event) : bool :=
  match e with EvCommit _ => true | _ => false end.

Definition is_rollback (e : event) : bool :=
  match e with EvRollback _ => true | _ => false end.

(** A statement or a COPY operation that did not raise. *)
Definition is_success (e : event) : bool :=
  match e with
  | EvExecute _ _ None | EvCopy _ _ _ None => true
  | _ => false
  end.

(** A statement that raised a [psycopg2.Error]. *)
Definition is_database_error (e : event) : bool :=
  match e with EvExecute _ _ (Some (DbError _)) => true | _ => false end.

(** The connection on which an event operates, if it is an operation on
    an established connection. *)
Definition op_conn (e : event) : option nat :=
  match e with
  | EvAutocommit c | EvCursor c | EvCursorClose c | EvCommit c | EvRollback c
  | EvExecute c _ _ | EvCopy c _ _ _ => Some c
  | EvPrint _ | EvConnect _ _ | EvConnectFail _ _ | EvClose _ => None
  end.

(** Every operation of the history was made on a connection that was, at
    that point, open, and the only open one. *)
Fixpoint ops_on_open (h : history) : bool :=
  match h with
  | [] => true
  | e :: h' =>
      match op_conn e with
      | Some c =>
          match open_conns h' with
          | [c'] => c' =? c
          | _ => false
          end
      | None => true
      end && ops_on_open h'
  end.

(** The event that follows each successful [connect] in the history
    switches that connection to autocommit. *)
Fixpoint autocommit_first (h : history) : bool :=
  match h with
  | [] => true
  | e :: h' =>
      match h' with
      | EvConnect c _ :: _ =>
          match e with EvAutocommit c' => c' =? c | _ => false end
      | _ => true
      end && autocommit_first h'
  end.

Definition print_or_close (e : event) : bool :=
  match e with EvPrint _ | EvClose _ => true | _ => false end.

(** Where an exception has left the [try] block, it was raised by the
    event after which the history holds only printing and closing. *)
Definition ended_by_exception (h : history) : Prop :=
  exists fin e older,
    h = fin ++ e :: older /\ escapes e = true /\
    forallb print_or_close fin = true /\ escaped older = false.

(** A world in which the file holds [content] and connecting to the
    database [db] fails. *)
Definition unreachable_world (content db : text) : world :=
  {| file_content := fun _ => Some content;
     connect_raises := fun _ d =>
       if text_eqb d db then Some (DbError (str "connection refused"))
       else None;
     execute_raises := fun _ _ _ => None;
     copy_raises := fun _ _ _ _ => None |}.

(** A dump with two directives. *)
Definition two_databases : text :=
  join_lines [str "CREATE DATABASE demo;"; str "\connect demo";
              str "SELECT 1;"; str "\connect other"; str "SELECT 2;"].

(** ** The main program *)




(** ** Any number of directives *)

(** The text of a file after its first part: for each directive the white
    space and the name of the directive, and the text that follows it. *)
Definition directives_text (dirs : list (text * text * text)) : text :=
  List.concat (map (fun d => match d with
                             | (ws, name, block) => directive ws name ++ block
                             end) dirs).

Definition directive_ok (d : text * text * text) : bool :=
  match d with
  | (ws, name, block) =>
      negb (text_eqb ws []) && all_space ws
      && negb (text_eqb name []) && all_word name
      && matches_nowhere match_connect block && ends_name block
  end.

(** ** A run in which nothing raises *)

(** A world in which no connection attempt, statement or COPY raises. *)
Definition calm (w : world) : Prop :=
  (forall h db, connect_raises w h db = None) /\
  (forall h c s, execute_raises w h c s = None) /\
  (forall h c cmd data, copy_raises w h c cmd data = None).

Definition is_cursor (e : event) : bool :=
  match e with EvCursor _ => true | _ => false end.

Definition is_cursor_close (e : event) : bool :=
  match e with EvCursorClose _ => true | _ => false end.

(** A statement raised an exception that is not a [psycopg2.Error]. *)
Definition statement_escaped (h : history) : bool :=
  existsb (fun e => match e with
                    | EvExecute _ _ (Some (OtherError _)) => true
                    | _ => false
                    end) h.

(** The cursors of a history are all closed, but for one if [leak]. *)
Definition cursors_closed (leak : bool) (h : history) : Prop :=
  count is_cursor h = count is_cursor_close h + (if leak then 1 else 0).

(** * Properties *)

(** ** Characters, prefixes and substrings *)

Lemma ascii_eqb_eq (a b : ascii) : ascii_eqb a b = true <-> a = b.
Proof. apply Ascii.eqb_eq. Qed.

Lemma ascii_eqb_refl (a : ascii) : ascii_eqb a a = true.
Proof. apply Ascii.eqb_refl. Qed.

Lemma ascii_eqb_neq (a b : ascii) : ascii_eqb a b = false <-> a <> b.
Proof. apply Ascii.eqb_neq. Qed.

Lemma starts_with_refl (p s : text) : starts_with ascii_eqb p (p ++ s) = true.
Proof.
  induction p as [|x p IH]; simpl; [reflexivity|].
  now rewrite ascii_eqb_refl, IH.
Qed.

Lemma starts_with_inv (p s : text) :
  starts_with ascii_eqb p s = true -> exists t, s = p ++ t.
Proof.
  revert s; induction p as [|x p IH]; intros s H.
  - now exists s.
  - destruct s as [|y s]; simpl in H; [discriminate|].
    apply andb_prop in H as [Hxy Hp].
    apply ascii_eqb_eq in Hxy; subst y.
    destruct (IH _ Hp) as [t ->]. now exists t.
Qed.

Lemma contains_app (sub a b : text) : contains sub (a ++ sub ++ b) = true.
Proof.
  induction a as [|c a IH].
  - simpl. destruct (sub ++ b) eqn:E; simpl;
      rewrite <- E, starts_with_refl; reflexivity.
  - simpl. rewrite IH. apply orb_true_r.
Qed.

Lemma contains_inv (sub s : text) :
  contains sub s = true -> exists a b, s = a ++ sub ++ b.
Proof.
  induction s as [|c s IH]; simpl; intros H.
  - rewrite orb_false_r in H. apply starts_with_inv in H as [t ->].
    now exists [], t.
  - apply orb_prop in H as [H|H].
    + apply starts_with_inv in H as [t ->]. now exists [], t.
    + destruct (IH H) as (a & b & ->). now exists (c :: a), b.
Qed.

(** ** The dollar-quote search and the active tag *)

Lemma drop_while_skip (p : ascii -> bool) (a s : text) :
  Forall (fun c => p c = true) a -> drop_while p (a ++ s) = drop_while p s.
Proof.
  induction 1 as [|c a Hc _ IH]; simpl; [reflexivity|]. now rewrite Hc.
Qed.

Lemma take_while_skip (p : ascii -> bool) (a s : text) :
  Forall (fun c => p c = true) a ->
  take_while p (a ++ s) = a ++ take_while p s.
Proof.
  induction 1 as [|c a Hc _ IH]; simpl; [reflexivity|]. now rewrite Hc, IH.
Qed.

Lemma no_dollar_not_dollar (s : text) :
  no_dollar s -> Forall (fun c => not_dollar c = true) s.
Proof.
  apply Forall_impl. intros c Hc. unfold not_dollar.
  apply negb_true_iff, ascii_eqb_neq, Hc.
Qed.

(** The leftmost match is the first dollar sign up to the next one. *)
Lemma search_dollar_quote_first (pre name rest : text) :
  no_dollar pre -> no_dollar name ->
  search_dollar_quote (pre ++ dollar :: name ++ dollar :: rest)
  = Some (dollar :: name ++ [dollar]).
Proof.
  intros Hpre Hname. unfold search_dollar_quote.
  fold not_dollar.
  rewrite (drop_while_skip _ _ _ (no_dollar_not_dollar _ Hpre)). simpl.
  rewrite (drop_while_skip _ _ _ (no_dollar_not_dollar _ Hname)).
  rewrite (take_while_skip _ _ _ (no_dollar_not_dollar _ Hname)). simpl.
  now rewrite app_nil_r.
Qed.

Lemma drop_while_found (p : ascii -> bool) (a b : text) (x : ascii) :
  p x = false -> drop_while p (a ++ x :: b) <> [].
Proof.
  intros Hx. induction a as [|c a IH]; simpl.
  - now rewrite Hx.
  - destruct (p c); [exact IH | discriminate].
Qed.

(** A line with two dollar signs matches the pattern. *)
Lemma search_dollar_quote_two (a m b : text) :
  search_dollar_quote (a ++ dollar :: m ++ dollar :: b) <> None.
Proof.
  assert (Hd : not_dollar dollar = false) by reflexivity.
  unfold search_dollar_quote. fold not_dollar.
  induction a as [|c a IH]; simpl.
  - pose proof (drop_while_found not_dollar m b dollar Hd) as H.
    destruct (drop_while not_dollar (m ++ dollar :: b)); [easy|discriminate].
  - destruct (not_dollar c) eqn:Hc; [exact IH|].
    pose proof (drop_while_found not_dollar (a ++ dollar :: m) b dollar Hd) as H.
    rewrite <- app_assoc in H. simpl in H.
    destruct (drop_while not_dollar (a ++ dollar :: m ++ dollar :: b));
      [easy|discriminate].
Qed.

Lemma search_dollar_quote_contains (name line : text) :
  contains (dollar :: name ++ [dollar]) line = true ->
  search_dollar_quote line <> None.
Proof.
  intros H. apply contains_inv in H as (a & b & ->).
  simpl. rewrite <- app_assoc. simpl. apply search_dollar_quote_two.
Qed.

(** While a tag is active and no line holds it, nothing is emitted. *)
Lemma split_loop_suppressed (tag : text) (ls : list text) :
  forall st,
    dollar_quote st = Some tag ->
    Forall (fun l => contains tag l = false) ls ->
    split_loop st ls =
    {| statements := statements st;
       current := current st ++ with_newlines ls;
       dollar_quote := Some tag |}.
Proof.
  induction ls as [|l ls IH]; intros st Hdq Hls.
  - destruct st; simpl in *. subst. now rewrite app_nil_r.
  - inversion Hls as [|? ? Hl Hls']; subst.
    unfold split_loop in *. simpl fold_left.
    assert (Hstep : split_step st l =
      {| statements := statements st; current := current st ++ l ++ [nl];
         dollar_quote := Some tag |}).
    { unfold split_step, update_dollar_quote. rewrite Hdq, Hl.
      destruct (search_dollar_quote l); reflexivity. }
    rewrite Hstep, IH; simpl; auto.
    unfold with_newlines. simpl. now rewrite <- !app_assoc.
Qed.

(** C9. When no tag is active, a line whose first dollar-quote marker is
    [tag] makes [tag] the active tag and emits nothing, even when the
    line goes on to hold [tag] a second time (a body that opens and closes
    on that one line).  The lines after it are then appended to the
    current statement without any split for as long as none of them
    holds the text of [tag], and the first later line that does hold it
    clears the tag. *)
Theorem split_same_line_tag_stays_active
  (st : split_state) (pre name rest : text) (ls : list text) :
  dollar_quote st = None ->
  no_dollar pre -> no_dollar name ->
  Forall (fun l => contains (dollar :: name ++ [dollar]) l = false) ls ->
  let tag := dollar :: name ++ [dollar] in
  let line := pre ++ tag ++ rest in
  split_step st line =
    {| statements := statements st;
       current := current st ++ line ++ [nl];
       dollar_quote := Some tag |} /\
  split_loop st (line :: ls) =
    {| statements := statements st;
       current := current st ++ line ++ [nl] ++ with_newlines ls;
       dollar_quote := Some tag |} /\
  forall l, contains tag l = true ->
    dollar_quote (split_step (split_loop st (line :: ls)) l) = None.
Proof.
  intros Hdq Hpre Hname Hls tag line.
  assert (Hstep : split_step st line =
    {| statements := statements st; current := current st ++ line ++ [nl];
       dollar_quote := Some tag |}).
  { unfold split_step, update_dollar_quote, line, tag.
    simpl. rewrite <- app_assoc. simpl.
    rewrite (search_dollar_quote_first pre name rest Hpre Hname), Hdq. reflexivity. }
  assert (Hloop : split_loop st (line :: ls) =
    {| statements := statements st;
       current := current st ++ line ++ [nl] ++ with_newlines ls;
       dollar_quote := Some tag |}).
  { unfold split_loop. simpl fold_left. fold (split_loop (split_step st line) ls).
    rewrite Hstep, (split_loop_suppressed tag); simpl; auto.
    now rewrite <- !app_assoc. }
  split; [exact Hstep|]. split; [exact Hloop|].
  intros l Hl. rewrite Hloop.
  unfold split_step, update_dollar_quote. simpl dollar_quote.
  pose proof (search_dollar_quote_contains name l Hl) as Hs.
  destruct (search_dollar_quote l); [|congruence].
  fold tag. rewrite Hl.
  destruct (ends_with [semicolon] (strip l)); reflexivity.
Qed.

(** ** Lines and ordinary statements *)

Lemma split_lines_single (l : text) :
  has_newline l = false -> split_lines l = [l].
Proof.
  induction l as [|c l IH]; simpl; [reflexivity|]. intros H.
  apply orb_false_elim in H as [Hc Hl]. now rewrite Hc, (IH Hl).
Qed.

Lemma split_lines_app (l s : text) :
  has_newline l = false -> split_lines (l ++ nl :: s) = l :: split_lines s.
Proof.
  induction l as [|c l IH]; simpl; intros H.
  - reflexivity.
  - apply orb_false_elim in H as [Hc Hl]. now rewrite Hc, (IH Hl).
Qed.

Lemma split_lines_join (ls : list text) :
  ls <> [] -> forallb (fun l => negb (has_newline l)) ls = true ->
  split_lines (join_lines ls) = ls.
Proof.
  induction ls as [|l ls IH]; [easy|]. intros _ H.
  simpl in H. apply andb_prop in H as [Hl Hls].
  apply negb_true_iff in Hl.
  destruct ls as [|l2 ls].
  - simpl. now apply split_lines_single.
  - change (join_lines (l :: l2 :: ls)) with (l ++ nl :: join_lines (l2 :: ls)).
    rewrite (split_lines_app _ _ Hl), IH; [reflexivity|discriminate|exact Hls].
Qed.

Lemma with_newlines_app (a b : list text) :
  with_newlines (a ++ b) = with_newlines a ++ with_newlines b.
Proof. unfold with_newlines. now rewrite map_app, concat_app. Qed.

Lemma with_newlines_join (ls : list text) :
  ls <> [] -> with_newlines ls = join_lines ls ++ [nl].
Proof.
  induction ls as [|l ls IH]; [easy|]. intros _.
  destruct ls as [|l2 ls];
    [unfold with_newlines; simpl; now rewrite app_nil_r|].
  change (with_newlines (l :: l2 :: ls))
    with ((l ++ [nl]) ++ with_newlines (l2 :: ls)).
  rewrite IH by discriminate.
  change (join_lines (l :: l2 :: ls)) with (l ++ nl :: join_lines (l2 :: ls)).
  now rewrite <- !app_assoc.
Qed.

Lemma split_step_plain (st : split_state) (l : text) :
  dollar_quote st = None -> plain_line l = true ->
  split_step st l =
  if ends_statement l
  then {| statements := statements st ++ [current st ++ l ++ [nl]];
          current := []; dollar_quote := None |}
  else {| statements := statements st; current := current st ++ l ++ [nl];
          dollar_quote := None |}.
Proof.
  intros Hdq Hl. apply andb_prop in Hl as [_ Hs].
  unfold split_step, update_dollar_quote, ends_statement. rewrite Hdq.
  destruct (search_dollar_quote l); [discriminate|reflexivity].
Qed.

Lemma split_loop_cons (st : split_state) (l : text) (ls : list text) :
  split_loop st (l :: ls) = split_loop (split_step st l) ls.
Proof. reflexivity. Qed.

Lemma split_loop_app (st : split_state) (a b : list text) :
  split_loop st (a ++ b) = split_loop (split_loop st a) b.
Proof. apply fold_left_app. Qed.

Lemma split_loop_ordinary (ls : list text) :
  forall st, dollar_quote st = None -> ordinary_statement ls = true ->
  split_loop st ls =
  {| statements := statements st ++ [current st ++ with_newlines ls];
     current := []; dollar_quote := None |}.
Proof.
  induction ls as [|l ls IH]; intros st Hdq H; [discriminate|].
  destruct ls as [|l2 ls].
  - simpl in H. apply andb_prop in H as [Hp He].
    unfold split_loop. simpl. rewrite (split_step_plain _ _ Hdq Hp), He.
    unfold with_newlines. simpl. now rewrite app_nil_r.
  - change (ordinary_statement (l :: l2 :: ls))
      with (plain_line l && negb (ends_statement l)
            && ordinary_statement (l2 :: ls)) in H.
    apply andb_prop in H as [H Hrest]. apply andb_prop in H as [Hp He].
    apply negb_true_iff in He.
    rewrite split_loop_cons, (split_step_plain _ _ Hdq Hp), He.
    rewrite IH by (simpl; auto). simpl.
    change (with_newlines (l :: l2 :: ls))
      with ((l ++ [nl]) ++ with_newlines (l2 :: ls)).
    now rewrite <- !app_assoc.
Qed.

Lemma split_loop_ordinary_all (stmts : list (list text)) :
  forall st, dollar_quote st = None -> current st = [] ->
  forallb ordinary_statement stmts = true ->
  split_loop st (List.concat stmts) =
  {| statements := statements st ++ map with_newlines stmts;
     current := []; dollar_quote := None |}.
Proof.
  induction stmts as [|s stmts IH]; intros st Hdq Hcur H.
  - destruct st; simpl in *; subst. now rewrite app_nil_r.
  - simpl in H. apply andb_prop in H as [Hs Hrest].
    simpl List.concat.
    rewrite split_loop_app, (split_loop_ordinary _ _ Hdq Hs).
    rewrite IH by auto. simpl. rewrite Hcur. simpl.
    now rewrite <- app_assoc.
Qed.

Lemma ordinary_statement_lines (ls : list text) :
  ordinary_statement ls = true ->
  ls <> [] /\ forallb (fun l => negb (has_newline l)) ls = true.
Proof.
  induction ls as [|l ls IH]; [discriminate|]. intros H.
  split; [discriminate|].
  destruct ls as [|l2 ls].
  - simpl in *. apply andb_prop in H as [Hp _].
    apply andb_prop in Hp as [Hn _]. now rewrite Hn.
  - change (ordinary_statement (l :: l2 :: ls))
      with (plain_line l && negb (ends_statement l)
            && ordinary_statement (l2 :: ls)) in H.
    apply andb_prop in H as [H Hrest]. apply andb_prop in H as [Hp _].
    apply andb_prop in Hp as [Hn _].
    simpl. rewrite Hn. simpl. apply (IH Hrest).
Qed.

Lemma ordinary_all_lines (stmts : list (list text)) :
  forallb ordinary_statement stmts = true ->
  forallb (fun l => negb (has_newline l)) (List.concat stmts) = true.
Proof.
  induction stmts as [|s stmts IH]; [reflexivity|]. intros H.
  simpl in H. apply andb_prop in H as [Hs Hrest].
  simpl. rewrite forallb_app, (proj2 (ordinary_statement_lines _ Hs)).
  now apply IH.
Qed.

Lemma split_lines_nonempty (s : text) : split_lines s <> [].
Proof.
  destruct s as [|c s]; simpl; [discriminate|].
  destruct (ascii_eqb c nl); [discriminate|].
  destruct (split_lines s); discriminate.
Qed.

Lemma join_split_lines (s : text) : join_lines (split_lines s) = s.
Proof.
  induction s as [|c s IH]; [reflexivity|]. simpl.
  pose proof (split_lines_nonempty s) as Hne.
  destruct (ascii_eqb c nl) eqn:Hc.
  - apply ascii_eqb_eq in Hc. subst c.
    destruct (split_lines s) as [|l ls]; [easy|].
    change (join_lines ([] :: l :: ls)) with (nl :: join_lines (l :: ls)).
    now rewrite IH.
  - destruct (split_lines s) as [|l ls]; [easy|].
    rewrite <- IH. now destruct ls.
Qed.

(** Every line the loop has seen is in an emitted statement or in the
    current buffer. *)
Lemma split_loop_keeps_text (lines : list text) :
  forall st,
  List.concat (statements (split_loop st lines)) ++ current (split_loop st lines)
  = List.concat (statements st) ++ current st ++ with_newlines lines.
Proof.
  induction lines as [|l lines IH]; intros st.
  - simpl. now rewrite app_nil_r.
  - rewrite split_loop_cons, IH.
    change (with_newlines (l :: lines))
      with ((l ++ [nl]) ++ with_newlines lines).
    unfold split_step.
    destruct (update_dollar_quote (dollar_quote st) l);
      [|destruct (ends_with [semicolon] (strip l))];
      cbn [statements current]; rewrite ?concat_app; simpl;
      now rewrite ?app_nil_r, <- ?app_assoc.
Qed.

(** C7. Splitting loses no text: for every input, what
    [split_sql_statements] emits, concatenated, is the input followed by
    one newline, up to a blank remainder that is not emitted.  For a text
    made of ordinary statements only (lines without a dollar-quote
    marker, each statement ending with the one line of it that ends in a
    semicolon), joined by newlines, it emits exactly these statements, in
    order, each with a newline after every line, and the concatenation is
    exactly the text followed by one newline. *)
Theorem split_ordinary_round_trip (stmts : list (list text)) :
  (forall sql_text, exists r,
     List.concat (split_sql_statements sql_text) ++ r = sql_text ++ [nl] /\
     nonblank r = false) /\
  (stmts <> [] ->
   forallb ordinary_statement stmts = true ->
   let sql_text := join_lines (List.concat stmts) in
   split_sql_statements sql_text = map with_newlines stmts /\
   List.concat (split_sql_statements sql_text) = sql_text ++ [nl]).
Proof.
  split.
  - intros sql_text. unfold split_sql_statements, split_finish.
    pose proof (split_loop_keeps_text (split_lines sql_text) split_init) as H.
    rewrite (with_newlines_join _ (split_lines_nonempty sql_text)) in H.
    rewrite join_split_lines in H. simpl in H.
    destruct (nonblank (current (split_loop split_init (split_lines sql_text))))
      eqn:Hb.
    + exists []. split; [|reflexivity].
      now rewrite app_nil_r, concat_app, <- H; simpl; rewrite app_nil_r.
    + exists (current (split_loop split_init (split_lines sql_text))).
      now split.
  - intros Hne H sql_text.
    assert (Hlines : List.concat stmts <> []).
    { destruct stmts as [|s stmts]; [easy|]. simpl in H.
      apply andb_prop in H as [Hs _].
      destruct s; [discriminate|]. discriminate. }
    assert (Hsplit : split_sql_statements sql_text = map with_newlines stmts).
    { unfold split_sql_statements, sql_text.
      rewrite (split_lines_join _ Hlines (ordinary_all_lines _ H)).
      rewrite (split_loop_ordinary_all _ split_init eq_refl eq_refl H).
      reflexivity. }
    split; [exact Hsplit|].
    rewrite Hsplit. unfold sql_text.
    rewrite <- (with_newlines_join _ Hlines).
    clear. induction stmts as [|s stmts IH]; [reflexivity|].
    simpl. now rewrite with_newlines_app, IH.
Qed.

(** ** re.split: the equations of the leftmost-match scan *)

Section ReSplit.

Variable m : matcher.
Hypothesis m_consuming : consuming m.

Lemma re_split_fuel_enough (n1 : nat) :
  forall n2 s, List.length s <= n1 -> List.length s <= n2 ->
  re_split_fuel m n1 s = re_split_fuel m n2 s.
Proof.
  induction n1 as [|n1 IH]; intros n2 s H1 H2.
  - destruct s; [|simpl in H1; lia]. now destruct n2.
  - destruct s as [|c s]; [now destruct n2|].
    destruct n2 as [|n2]; [simpl in H2; lia|].
    simpl in H1, H2. simpl.
    destruct (m (c :: s)) as [[group rest]|] eqn:Hm.
    + apply m_consuming in Hm. simpl in Hm.
      now rewrite (IH n2 rest) by lia.
    + now rewrite (IH n2 s) by lia.
Qed.

(** Any fuel of at least the length of the text gives the result of
    [re_split]: the scan never runs out of fuel. *)
Lemma re_split_fuel_adequate (n : nat) (s : text) :
  List.length s <= n -> re_split_fuel m n s = re_split m s.
Proof. intros H. now apply re_split_fuel_enough. Qed.

Lemma re_split_nil : re_split m [] = [[]].
Proof. reflexivity. Qed.

Lemma re_split_match (s group rest : text) :
  m s = Some (group, rest) ->
  re_split m s = [] :: group :: re_split m rest.
Proof.
  intros Hm. pose proof (m_consuming _ _ _ Hm) as Hlen.
  unfold re_split. destruct s as [|c s]; [simpl in Hlen; lia|].
  simpl in *. rewrite Hm.
  now rewrite (re_split_fuel_enough (List.length s) (List.length rest)) by lia.
Qed.

Lemma re_split_skip (c : ascii) (s : text) :
  m (c :: s) = None ->
  re_split m (c :: s) = cons_first c (re_split m s).
Proof. intros Hm. unfold re_split. simpl. now rewrite Hm. Qed.

Lemma re_split_nonempty (s : text) : re_split m s <> [].
Proof.
  unfold re_split. destruct s as [|c s]; [discriminate|]. simpl.
  destruct (m (c :: s)) as [[? ?]|]; [discriminate|].
  unfold cons_first. destruct (re_split_fuel m (List.length s) s); discriminate.
Qed.

(** Where the pattern matches nowhere, the text is returned whole. *)
Lemma re_split_no_match (s : text) :
  matches_nowhere m s = true -> re_split m s = [s].
Proof.
  induction s as [|c s IH]; intros H; [reflexivity|].
  simpl in H. destruct (m (c :: s)) eqn:Hm; [discriminate|].
  now rewrite (re_split_skip _ _ Hm), (IH H).
Qed.

(** The leftmost match is the first position at which the pattern
    matches. *)
Lemma re_split_prefix (pre s : text) :
  no_match_before m pre s = true ->
  re_split m (pre ++ s) = prepend pre (re_split m s).
Proof.
  induction pre as [|c pre IH]; intros H.
  - simpl. pose proof (re_split_nonempty s).
    now destruct (re_split m s).
  - simpl in H. destruct (m (c :: pre ++ s)) eqn:Hm; [discriminate|].
    simpl app. rewrite (re_split_skip _ _ Hm), (IH H).
    pose proof (re_split_nonempty s).
    now destruct (re_split m s).
Qed.

End ReSplit.

(** ** The connect directive *)

Lemma take_while_stop (p : ascii -> bool) (t s : text) (c : ascii) :
  p c = false -> take_while p (t ++ c :: s) = take_while p t.
Proof.
  intros Hc. induction t as [|x t IH]; simpl.
  - now rewrite Hc.
  - destruct (p x); [now rewrite IH | reflexivity].
Qed.

Lemma drop_while_stop (p : ascii -> bool) (t s : text) (c : ascii) :
  p c = false -> drop_while p (t ++ c :: s) = drop_while p t ++ c :: s.
Proof.
  intros Hc. induction t as [|x t IH]; simpl.
  - now rewrite Hc.
  - destruct (p x); [exact IH | reflexivity].
Qed.

Lemma take_drop_while (p : ascii -> bool) (s : text) :
  take_while p s ++ drop_while p s = s.
Proof.
  induction s as [|c s IH]; simpl; [reflexivity|].
  destruct (p c); simpl; [now rewrite IH | reflexivity].
Qed.

Lemma drop_while_length (p : ascii -> bool) (s : text) :
  List.length (drop_while p s) <= List.length s.
Proof.
  induction s as [|c s IH]; simpl; [lia|].
  destruct (p c); simpl; lia.
Qed.

Lemma match_connect_consuming : consuming match_connect.
Proof.
  intros s group rest H. unfold match_connect in H.
  destruct (starts_with ascii_eqb (str "\connect") s) eqn:Hs; [|discriminate].
  apply starts_with_inv in Hs as [t ->].
  change (skipn 8 (str "\connect" ++ t)) with t in H.
  destruct t as [|w t]; [discriminate|].
  destruct (is_space w); [|discriminate].
  destruct (take_while is_word (drop_while is_space (w :: t)));
    [discriminate|].
  injection H as _ <-.
  pose proof (drop_while_length is_word (drop_while is_space (w :: t))).
  pose proof (drop_while_length is_space (w :: t)).
  rewrite length_app. simpl in *. lia.
Qed.

Lemma forallb_Forall_true (p : ascii -> bool) (s : text) :
  forallb p s = true -> Forall (fun c => p c = true) s.
Proof. intros H. apply Forall_forall. now apply forallb_forall. Qed.

Lemma take_while_all (p : ascii -> bool) (a rest : text) :
  forallb p a = true ->
  match rest with [] => true | c :: _ => negb (p c) end = true ->
  take_while p (a ++ rest) = a /\ drop_while p (a ++ rest) = rest.
Proof.
  intros Ha Hr. apply forallb_Forall_true in Ha.
  rewrite (take_while_skip _ _ _ Ha), (drop_while_skip _ _ _ Ha).
  destruct rest as [|c rest]; simpl.
  - now rewrite app_nil_r.
  - apply negb_true_iff in Hr. rewrite Hr. now rewrite app_nil_r.
Qed.

Lemma match_connect_directive (ws name rest : text) :
  ws <> [] -> all_space ws = true ->
  name <> [] -> all_word name = true -> ends_name rest = true ->
  match_connect (directive ws name ++ rest) = Some (name, rest).
Proof.
  intros Hws Hsp Hname Hw Hrest. unfold match_connect, directive.
  rewrite <- app_assoc, starts_with_refl.
  change (skipn 8 (str "\connect" ++ (ws ++ name) ++ rest))
    with ((ws ++ name) ++ rest).
  destruct ws as [|w ws]; [easy|].
  simpl in Hsp. apply andb_prop in Hsp as [Hw0 Hsp].
  simpl app at 1. cbv iota. simpl app. rewrite Hw0.
  change (w :: (ws ++ name) ++ rest) with ((w :: ws ++ name) ++ rest).
  replace ((w :: ws ++ name) ++ rest) with ((w :: ws) ++ name ++ rest)
    by (simpl; now rewrite app_assoc).
  assert (Hd : drop_while is_space ((w :: ws) ++ name ++ rest) = name ++ rest).
  { apply take_while_all; [simpl; now rewrite Hw0|].
    destruct name as [|c name]; [easy|]. simpl in *.
    apply andb_prop in Hw as [Hc _].
    apply negb_true_iff. clear - Hc.
    destruct c as [[] [] [] [] [] [] [] []]; vm_compute in Hc |- *;
      congruence. }
  rewrite Hd.
  destruct (take_while_all is_word name rest Hw Hrest) as [-> ->].
  destruct name; [easy|reflexivity].
Qed.

Lemma starts_with_stop (eq : ascii -> ascii -> bool) (c : ascii) (p : text) :
  forallb (fun x => negb (eq x c)) p = true ->
  forall t s, starts_with eq p (t ++ c :: s) = starts_with eq p t.
Proof.
  induction p as [|x p IH]; intros Hp t s; [now destruct t|].
  simpl in Hp. apply andb_prop in Hp as [Hx Hp].
  apply negb_true_iff in Hx.
  destruct t as [|y t]; simpl.
  - now rewrite Hx.
  - now rewrite (IH Hp).
Qed.

(** A backslash after [t] cannot be part of a directive that starts in
    [t]: such a directive lies within [t]. *)
Lemma match_connect_stop (t s : text) :
  t <> [] -> match_connect t = None ->
  match_connect (t ++ backslash :: s) = None.
Proof.
  intros Ht H. destruct t as [|y t]; [easy|].
  unfold match_connect in *.
  change (starts_with ascii_eqb (str "\connect") ((y :: t) ++ backslash :: s))
    with (ascii_eqb backslash y
          && starts_with ascii_eqb (str "connect") (t ++ backslash :: s)).
  change (starts_with ascii_eqb (str "\connect") (y :: t))
    with (ascii_eqb backslash y && starts_with ascii_eqb (str "connect") t) in H.
  rewrite (starts_with_stop ascii_eqb backslash (str "connect") eq_refl).
  destruct (ascii_eqb backslash y && starts_with ascii_eqb (str "connect") t)
    eqn:Hs; [|reflexivity].
  apply andb_prop in Hs as [Hy Hs]. apply starts_with_inv in Hs as [t1 ->].
  change (skipn 8 ((y :: str "connect" ++ t1) ++ backslash :: s))
    with (t1 ++ backslash :: s).
  change (skipn 8 (y :: str "connect" ++ t1)) with t1 in H.
  destruct t1 as [|w t1]; [reflexivity|].
  simpl app at 1. cbv iota.
  destruct (is_space w) eqn:Hw; [|reflexivity].
  change (w :: t1 ++ backslash :: s) with ((w :: t1) ++ backslash :: s).
  rewrite (drop_while_stop is_space _ _ backslash eq_refl).
  rewrite (take_while_stop is_word _ _ backslash eq_refl).
  destruct (take_while is_word (drop_while is_space (w :: t1)));
    [reflexivity|discriminate].
Qed.

Lemma no_connect_before (pre s : text) :
  matches_nowhere match_connect pre = true ->
  no_match_before match_connect pre (backslash :: s) = true.
Proof.
  induction pre as [|c pre IH]; intros H; [reflexivity|].
  simpl in H. destruct (match_connect (c :: pre)) eqn:Hm; [discriminate|].
  simpl no_match_before.
  change (c :: pre ++ backslash :: s) with ((c :: pre) ++ backslash :: s).
  rewrite (match_connect_stop (c :: pre) s); [now apply IH|discriminate|exact Hm].
Qed.

(** The split at one directive. *)
Lemma split_connect_directive (pre ws name rest : text) :
  matches_nowhere match_connect pre = true ->
  ws <> [] -> all_space ws = true ->
  name <> [] -> all_word name = true -> ends_name rest = true ->
  split_connect (pre ++ directive ws name ++ rest)
  = pre :: name :: split_connect rest.
Proof.
  intros Hpre Hws Hsp Hname Hw Hrest. unfold split_connect.
  rewrite (re_split_prefix match_connect).
  - rewrite (re_split_match match_connect match_connect_consuming _ name rest).
    + simpl. now rewrite app_nil_r.
    + now apply match_connect_directive.
  - unfold directive. rewrite <- app_assoc.
    change (str "\connect" ++ ws ++ name ++ rest)
      with (backslash :: str "connect" ++ ws ++ name ++ rest).
    now apply no_connect_before.
Qed.

(** ** What the execution of a segment adds to the history *)

Lemma extends_refl (q : event -> bool) (h : history) : extends_with q h h.
Proof. now exists []. Qed.

Lemma extends_cons (q : event -> bool) (e : event) (h h' : history) :
  q e = true -> extends_with q h h' -> extends_with q h (e :: h').
Proof.
  intros He (evs & -> & Hq). exists (e :: evs). simpl. now rewrite He, Hq.
Qed.

Lemma extends_trans (q : event -> bool) (h1 h2 h3 : history) :
  extends_with q h1 h2 -> extends_with q h2 h3 -> extends_with q h1 h3.
Proof.
  intros (e1 & -> & H1) (e2 & -> & H2). exists (e2 ++ e1).
  now rewrite app_assoc, forallb_app, H1, H2.
Qed.

Lemma extends_weaken (q q' : event -> bool) (h h' : history) :
  (forall e, q e = true -> q' e = true) ->
  extends_with q h h' -> extends_with q' h h'.
Proof.
  intros Hqq (evs & -> & Hq). exists evs. split; [reflexivity|].
  apply forallb_forall. intros e He. apply Hqq.
  now apply (proj1 (forallb_forall q evs) Hq).
Qed.

Lemma nonblank_head (c : ascii) (s : text) :
  is_space c = false -> nonblank (c :: s) = true.
Proof.
  intros Hc. unfold nonblank, strip. simpl. rewrite Hc. simpl.
  pose proof (drop_while_found is_space (rev s) [] c Hc) as H.
  destruct (drop_while is_space (rev s ++ [c])) as [|x d]; [easy|].
  simpl. destruct (rev d ++ [x]) eqn:E; [|reflexivity].
  now destruct (rev d).
Qed.

(** The first line of a COPY part starts with the keyword. *)
Lemma copy_command_nonblank (part : text) :
  is_copy_part part = true -> nonblank (hd [] (split_lines part)) = true.
Proof.
  unfold is_copy_part, match_copy_header. intros H.
  destruct (starts_with ci_eqb (str "COPY") part) eqn:Hs; [|discriminate].
  clear H. destruct part as [|c part]; [discriminate|].
  simpl in Hs. apply andb_prop in Hs as [Hc _].
  assert (Hnl : ascii_eqb c nl = false /\ is_space c = false).
  { clear - Hc. destruct c as [[] [] [] [] [] [] [] []];
      vm_compute in Hc |- *; (discriminate || now split). }
  destruct Hnl as [Hnl Hsp]. simpl. rewrite Hnl.
  destruct (split_lines part); simpl; now apply nonblank_head.
Qed.

Lemma execute_copy_events (w : world) (h : history) (c : nat) (part : text) :
  is_copy_part part = true ->
  extends_with (statement_event c) h (execute_copy w h c part).
Proof.
  intros Hp. unfold execute_copy.
  pose proof (copy_command_nonblank part Hp) as Hn.
  destruct (copy_raises w h c _ _).
  - exists [EvPrint (str "Warning: Error executing COPY command: " ++ exn_msg e);
            EvCopy c (hd [] (split_lines part))
              (join_lines (copy_data_lines false (tl (split_lines part))))
              (Some e)].
    split; [reflexivity|]. unfold statement_event. simpl.
    now rewrite Nat.eqb_refl, Hn.
  - exists [EvCommit c;
            EvCopy c (hd [] (split_lines part))
              (join_lines (copy_data_lines false (tl (split_lines part))))
              None].
    split; [reflexivity|]. unfold statement_event. simpl.
    now rewrite Nat.eqb_refl, Hn.
Qed.

Lemma execute_statements_events (w : world) (c : nat) (stmts : list text) :
  forall h,
  extends_with (statement_event c) h (fst (execute_statements w h c stmts)).
Proof.
  induction stmts as [|s stmts IH]; intros h; [apply extends_refl|].
  simpl. destruct (nonblank s) eqn:Hs; [|apply IH].
  assert (Hex : forall r, statement_event c (EvExecute c s r) = true).
  { intros r. unfold statement_event. simpl. now rewrite Nat.eqb_refl, Hs. }
  assert (Hc : forall e, on_conn c e = true -> sends_nonblank e = true ->
                         statement_event c e = true).
  { intros e H1 H2. unfold statement_event. now rewrite H1, H2. }
  destruct (execute_raises w h c s) as [[msg|msg]|].
  - eapply extends_trans; [|apply IH].
    apply extends_cons; [apply Hc; simpl; auto using Nat.eqb_refl|].
    destruct (already_exists msg).
    + apply extends_cons; [apply Hex|apply extends_refl].
    + apply extends_cons; [reflexivity|].
      apply extends_cons; [apply Hex|apply extends_refl].
  - simpl. apply extends_cons; [apply Hex|apply extends_refl].
  - eapply extends_trans; [|apply IH].
    apply extends_cons; [apply Hc; simpl; auto using Nat.eqb_refl|].
    apply extends_cons; [apply Hex|apply extends_refl].
Qed.

Lemma execute_parts_events (w : world) (c : nat) (parts : list text) :
  forall h,
  extends_with (statement_event c) h (fst (execute_parts w h c parts)).
Proof.
  induction parts as [|p parts IH]; intros h; [apply extends_refl|].
  simpl. destruct (nonblank p); simpl; [|apply IH].
  destruct (is_copy_part p) eqn:Hp.
  - eapply extends_trans; [|apply IH]. now apply execute_copy_events.
  - pose proof (execute_statements_events w c (split_sql_statements p) h) as H.
    destruct (execute_statements w h c (split_sql_statements p)) as [h' [e|]];
      simpl in *; [exact H|].
    eapply extends_trans; [exact H|apply IH].
Qed.

Lemma execute_sql_statements_events
  (w : world) (h : history) (c : nat) (sql_content : text) :
  extends_with (statement_event c) h
    (fst (execute_sql_statements w h c sql_content)).
Proof.
  unfold execute_sql_statements.
  pose proof (execute_parts_events w c (split_copy sql_content)
                (EvCursor c :: h)) as H.
  assert (H0 : extends_with (statement_event c) h (EvCursor c :: h)).
  { apply extends_cons; [|apply extends_refl].
    unfold statement_event. simpl. now rewrite Nat.eqb_refl. }
  destruct (execute_parts w (EvCursor c :: h) c (split_copy sql_content))
    as [h' [e|]]; simpl in *.
  - eapply extends_trans; eassumption.
  - apply extends_cons.
    + unfold statement_event. simpl. now rewrite Nat.eqb_refl.
    + eapply extends_trans; eassumption.
Qed.

(** ** Open connections *)

Lemma always_now (p : history -> Prop) (h0 h : history) :
  always p h0 h -> p h.
Proof. now destruct 1. Qed.

Lemma on_conn_open (c : nat) (e : event) (h : history) :
  on_conn c e = true -> open_conns (e :: h) = open_conns h.
Proof. now destruct e. Qed.

Lemma always_extends (c : nat) (h0 h h' : history) :
  always one_open h0 h -> extends_with (on_conn c) h h' ->
  always one_open h0 h' /\ open_conns h' = open_conns h.
Proof.
  intros Hh (evs & -> & Hq). induction evs as [|e evs IH]; [now split|].
  simpl in Hq. apply andb_prop in Hq as [He Hq].
  destruct (IH Hq) as [Ha Ho]. simpl app.
  rewrite (on_conn_open c e _ He). split; [|exact Ho].
  apply always_step; [exact Ha|].
  unfold one_open. rewrite (on_conn_open c e _ He).
  apply (always_now _ _ _ Ha).
Qed.

Lemma statement_event_on_conn (c : nat) (e : event) :
  statement_event c e = true -> on_conn c e = true.
Proof. unfold statement_event. intros H. now apply andb_prop in H. Qed.

Lemma always_statements (w : world) (c : nat) (h0 h : history) (s : text) :
  always one_open h0 h ->
  always one_open h0 (fst (execute_sql_statements w h c s)) /\
  open_conns (fst (execute_sql_statements w h c s)) = open_conns h.
Proof.
  intros Hh. apply (always_extends c); [exact Hh|].
  apply (extends_weaken (statement_event c)).
  - apply statement_event_on_conn.
  - apply execute_sql_statements_events.
Qed.

Lemma close_if_open_closed (conn : option nat) (h0 h : history) :
  always one_open h0 h -> conn_tracks conn h ->
  always one_open h0 (close_if_open conn h) /\
  open_conns (close_if_open conn h) = [].
Proof.
  intros Hh Ht. destruct conn as [c|]; simpl.
  - assert (Ho : filter (fun x => negb (x =? c)) (open_conns h) = []).
    { destruct Ht as [->|(c' & Hc & ->)]; [reflexivity|].
      injection Hc as ->. simpl. now rewrite Nat.eqb_refl. }
    split; [|exact Ho].
    apply always_step; [exact Hh|]. unfold one_open. simpl. rewrite Ho.
    simpl. lia.
  - split; [exact Hh|]. destruct Ht as [H|(c & Hc & _)]; [exact H|discriminate].
Qed.

(** Opening a connection when none is open. *)
Lemma always_connect (h0 h : history) (c : nat) (db : text) :
  always one_open h0 h -> open_conns h = [] ->
  let h' := EvPrint (connected_msg db) :: EvAutocommit c
            :: EvConnect c db :: h in
  always one_open h0 h' /\ open_conns h' = [c].
Proof.
  intros Hh Ho h'. unfold h'. split; [|simpl; now rewrite Ho].
  repeat apply always_step; try exact Hh;
    unfold one_open; simpl; rewrite Ho; simpl; lia.
Qed.

Lemma connect_loop_always (w : world) (h0 : history) (parts : list text) :
  forall n h conn, List.length parts <= n ->
  always one_open h0 h -> conn_tracks conn h ->
  let r := connect_loop w h conn parts in
  always one_open h0 (tr_history r) /\ conn_tracks (tr_conn r) (tr_history r).
Proof.
  intros n. revert parts.
  induction n as [|n IH]; intros parts h conn Hlen Hh Ht.
  - destruct parts; [|simpl in Hlen; lia]. simpl. now split.
  - destruct parts as [|new_db [|sql_block parts]]; [now split|now split|].
    simpl in Hlen. simpl.
    destruct (close_if_open_closed conn h0 h Hh Ht) as [Hh1 Ho1].
    destruct (connect_raises w (close_if_open conn h) new_db) as [e|].
    + simpl. split.
      * apply always_step; [exact Hh1|]. unfold one_open. simpl.
        rewrite Ho1. simpl. lia.
      * left. simpl. exact Ho1.
    + destruct (always_connect h0 _ (fresh_conn (close_if_open conn h))
                  new_db Hh1 Ho1) as [Hh2 Ho2].
      destruct (nonblank sql_block).
      * destruct (always_statements w (fresh_conn (close_if_open conn h))
                    h0 _ sql_block Hh2) as [Hh3 Ho3].
        destruct (execute_sql_statements w _ _ sql_block) as [h3 [e|]];
          simpl in *.
        -- split; [exact Hh3|]. right. eexists. split; [reflexivity|].
           now rewrite Ho3.
        -- apply IH; [lia|exact Hh3|].
           right. eexists. split; [reflexivity|]. now rewrite Ho3.
      * apply IH; [lia|exact Hh2|].
        right. eexists. split; [reflexivity|exact Ho2].
Qed.

Lemma first_part_always (w : world) (h0 h : history) (part0 : text) :
  always one_open h0 h -> open_conns h = [] ->
  let r := first_part w h part0 in
  always one_open h0 (tr_history r) /\ conn_tracks (tr_conn r) (tr_history r).
Proof.
  intros Hh Ho. unfold first_part. destruct (nonblank part0).
  - destruct (connect_raises w h DB_CONFIG_dbname) as [e|].
    + simpl. split; [|now left].
      apply always_step; [exact Hh|]. unfold one_open. simpl. rewrite Ho.
      simpl. lia.
    + destruct (always_connect h0 h (fresh_conn h) DB_CONFIG_dbname Hh Ho)
        as [Hh1 Ho1].
      destruct (always_statements w (fresh_conn h) h0 _ part0 Hh1) as [Hh2 Ho2].
      destruct (execute_sql_statements w _ _ part0) as [h2 r]. simpl in *.
      split; [exact Hh2|]. right. eexists. split; [reflexivity|].
      now rewrite Ho2.
  - simpl. split; [exact Hh|now left].
Qed.

Lemma try_body_always (w : world) (h0 h : history) (parts : list text) :
  always one_open h0 h -> open_conns h = [] ->
  let r := try_body w h parts in
  always one_open h0 (tr_history r) /\ conn_tracks (tr_conn r) (tr_history r).
Proof.
  intros Hh Ho. unfold try_body.
  destruct (first_part_always w h0 h (hd [] parts) Hh Ho) as [H1 H2].
  destruct (tr_raised (first_part w h (hd [] parts))); [now split|].
  now apply (connect_loop_always w h0 (tl parts) (List.length (tl parts))).
Qed.

(** The [finally] clause leaves nothing open. *)
Lemma finally_always (h0 h : history) (conn : option nat) (msg : text) :
  always one_open h0 h -> conn_tracks conn h ->
  let h' := finally conn (EvPrint msg :: h) in
  always one_open h0 h' /\ open_conns h' = [].
Proof.
  intros Hh Ht.
  assert (Hp : always one_open h0 (EvPrint msg :: h)).
  { apply always_step; [exact Hh|]. apply (always_now _ _ _ Hh). }
  assert (Htp : conn_tracks conn (EvPrint msg :: h)) by exact Ht.
  destruct (close_if_open_closed conn h0 _ Hp Htp) as [Hc Ho].
  destruct conn as [c|]; simpl in *.
  - split; [|exact Ho]. apply always_step; [exact Hc|].
    unfold one_open. simpl. rewrite Ho. simpl. lia.
  - now split.
Qed.

Lemma execute_sql_file_found
  (w : world) (h : history) (sql_file_path content : text) :
  file_content w sql_file_path = Some content ->
  let r := try_body w (EvPrint (str "Reading SQL file: " ++ sql_file_path) :: h)
             (split_connect content) in
  execute_sql_file w h sql_file_path =
  (finally (tr_conn r) (EvPrint (outcome_msg (tr_raised r)) :: tr_history r),
   succeeded (tr_raised r)).
Proof.
  intros Hf r. unfold execute_sql_file. rewrite Hf. fold r.
  destruct (tr_raised r) as [[msg|msg]|]; reflexivity.
Qed.

Lemma execute_sql_file_missing (w : world) (h : history) (sql_file_path : text) :
  file_content w sql_file_path = None ->
  execute_sql_file w h sql_file_path =
  (EvPrint (str "Error: File " ++ sql_file_path ++ str " not found!") :: h,
   false).
Proof. intros Hf. unfold execute_sql_file. now rewrite Hf. Qed.

(** C8. From the start of a run to its end, at most one connection opened
    by the runner is open at any point, and none is open when
    [execute_sql_file] returns, whether it returns [True] or [False]. *)
Theorem at_most_one_connection_open (w : world) (sql_file_path : text) :
  always one_open [] (fst (execute_sql_file w [] sql_file_path)) /\
  open_conns (fst (execute_sql_file w [] sql_file_path)) = [].
Proof.
  assert (H0 : always one_open [] []).
  { apply always_start. unfold one_open. simpl. lia. }
  destruct (file_content w sql_file_path) as [content|] eqn:Hf.
  - rewrite (execute_sql_file_found w [] _ _ Hf). cbv zeta.
    set (h1 := [EvPrint (str "Reading SQL file: " ++ sql_file_path)]).
    assert (H1 : always one_open [] h1).
    { apply always_step; [exact H0|]. unfold one_open. simpl. lia. }
    destruct (try_body_always w [] h1 (split_connect content) H1 eq_refl)
      as [Ha Ht].
    unfold fst. now apply finally_always.
  - rewrite (execute_sql_file_missing w [] _ Hf). unfold fst.
    split; [|reflexivity].
    apply always_step; [exact H0|]. unfold one_open. simpl. lia.
Qed.

(** ** Exceptions that leave the [try] block *)










(** ** The databases a run connects to *)

Lemma attempted_extends (c : nat) (h h' : history) :
  extends_with (on_conn c) h h' -> attempted_dbs h' = attempted_dbs h.
Proof.
  intros (evs & -> & Hq). induction evs as [|e evs IH]; [reflexivity|].
  simpl in Hq. apply andb_prop in Hq as [He Hq].
  destruct e; try discriminate; simpl; now apply IH.
Qed.

Lemma attempted_sql_statements (w : world) (h : history) (c : nat) (s : text) :
  attempted_dbs (fst (execute_sql_statements w h c s)) = attempted_dbs h.
Proof.
  apply (attempted_extends c).
  apply (extends_weaken (statement_event c)).
  - apply statement_event_on_conn.
  - apply execute_sql_statements_events.
Qed.

Lemma attempted_close_if_open (conn : option nat) (h : history) :
  attempted_dbs (close_if_open conn h) = attempted_dbs h.
Proof. now destruct conn. Qed.

Lemma attempted_finally (conn : option nat) (h : history) :
  attempted_dbs (finally conn h) = attempted_dbs h.
Proof. now destruct conn. Qed.


Lemma attempted_first_part (w : world) (h : history) (part0 : text) :
  attempted_dbs (tr_history (first_part w h part0))
  = attempted_dbs h ++ (if nonblank part0 then [DB_CONFIG_dbname] else []).
Proof.
  unfold first_part. destruct (nonblank part0).
  - destruct (connect_raises w h DB_CONFIG_dbname) as [e|]; [reflexivity|].
    pose proof (attempted_sql_statements w
      (EvPrint (connected_msg DB_CONFIG_dbname) :: EvAutocommit (fresh_conn h)
       :: EvConnect (fresh_conn h) DB_CONFIG_dbname :: h)
      (fresh_conn h) part0) as H.
    destruct (execute_sql_statements w _ _ part0) as [h2 r]. exact H.
  - simpl. now rewrite app_nil_r.
Qed.



(** When no statement raises anything but [psycopg2.Error], the loop
    executes every non-blank statement, in order, and ends normally. *)
Lemma execute_statements_all (w : world) (c : nat) :
  (forall hx s m, execute_raises w hx c s <> Some (OtherError m)) ->
  forall stmts h,
    snd (execute_statements w h c stmts) = None /\
    executed (fst (execute_statements w h c stmts))
    = executed h ++ filter nonblank stmts.
Proof.
  intros Hw. induction stmts as [|s stmts IH]; intros h.
  - simpl. now rewrite app_nil_r.
  - cbn [execute_statements filter]. destruct (nonblank s); [|apply IH].
    destruct (execute_raises w h c s) as [[msg|msg]|] eqn:Hr.
    + destruct (IH (EvRollback c
                    :: (if already_exists msg
                        then EvExecute c s (Some (DbError msg)) :: h
                        else EvPrint (str "Warning: " ++ msg)
                             :: EvExecute c s (Some (DbError msg)) :: h)))
        as [H1 H2].
      split; [exact H1|]. rewrite H2.
      destruct (already_exists msg); simpl; now rewrite <- app_assoc.
    + now destruct (Hw h s msg).
    + destruct (IH (EvCommit c :: EvExecute c s None :: h)) as [H1 H2].
      split; [exact H1|]. rewrite H2. simpl. now rewrite <- app_assoc.
Qed.

(** C2, as amended.  A statement whose execution raises a [psycopg2.Error]
    is rolled back and the loop goes on with the statements after it.
    When the message holds [already exists], in any case of letters,
    nothing is printed for it; otherwise the warning is printed before the
    rollback.  Where no statement raises anything but [psycopg2.Error],
    the loop ends normally, having executed the failed statement and
    every non-blank statement after it. *)
Theorem database_error_is_not_fatal
  (w : world) (h : history) (c : nat) (statement msg : text)
  (rest : list text) :
  nonblank statement = true ->
  execute_raises w h c statement = Some (DbError msg) ->
  execute_statements w h c (statement :: rest) =
  execute_statements w
    (EvRollback c
     :: (if already_exists msg then [] else [EvPrint (str "Warning: " ++ msg)])
     ++ EvExecute c statement (Some (DbError msg)) :: h) c rest /\
  ((forall hx s m, execute_raises w hx c s <> Some (OtherError m)) ->
   snd (execute_statements w h c (statement :: rest)) = None /\
   executed (fst (execute_statements w h c (statement :: rest)))
   = executed h ++ statement :: filter nonblank rest).
Proof.
  intros Hn Hr. split.
  - simpl. rewrite Hn, Hr. now destruct (already_exists msg).
  - intros Hw.
    destruct (execute_statements_all w c Hw (statement :: rest) h) as [H1 H2].
    split; [exact H1|]. rewrite H2. simpl. now rewrite Hn.
Qed.

(** C4. When the pattern of the directive matches nowhere in the file,
    there is one segment, the whole content for the configured database,
    and the only database a run tries to connect to is the configured
    one (to none at all when the content is blank). *)
Theorem no_directive_one_segment (content : text) :
  matches_nowhere match_connect content = true ->
  segments content = [(DB_CONFIG_dbname, content)] /\
  forall w sql_file_path,
    file_content w sql_file_path = Some content ->
    attempted_dbs (fst (execute_sql_file w [] sql_file_path))
    = if nonblank content then [DB_CONFIG_dbname] else [].
Proof.
  intros H.
  assert (Hs : split_connect content = [content]).
  { now apply re_split_no_match. }
  split.
  - unfold segments. now rewrite Hs.
  - intros w path Hf. rewrite (execute_sql_file_found w [] _ _ Hf).
    cbv zeta. unfold fst. rewrite attempted_finally, Hs.
    set (h1 := [EvPrint (str "Reading SQL file: " ++ path)]).
    change (attempted_dbs (EvPrint (outcome_msg (tr_raised (try_body w h1
              [content]))) :: tr_history (try_body w h1 [content])))
      with (attempted_dbs (tr_history (try_body w h1 [content]))).
    assert (Ht : tr_history (try_body w h1 [content])
                 = tr_history (first_part w h1 content)).
    { unfold try_body. simpl hd. simpl tl.
      now destruct (tr_raised (first_part w h1 content)). }
    rewrite Ht, attempted_first_part. reflexivity.
Qed.

(** ** Blank text *)

Lemma statement_event_sends (c : nat) (e : event) :
  statement_event c e = true -> sends_nonblank e = true.
Proof. unfold statement_event. intros H. now apply andb_prop in H. Qed.

Lemma sends_sql_statements (w : world) (h : history) (c : nat) (s : text) :
  extends_with sends_nonblank h (fst (execute_sql_statements w h c s)).
Proof.
  apply (extends_weaken (statement_event c));
    [apply statement_event_sends|apply execute_sql_statements_events].
Qed.

Lemma sends_close_if_open (conn : option nat) (h : history) :
  extends_with sends_nonblank h (close_if_open conn h).
Proof.
  destruct conn; simpl; [|apply extends_refl].
  apply extends_cons; [reflexivity|apply extends_refl].
Qed.

Lemma sends_connect_loop (w : world) (parts : list text) :
  forall n h conn, List.length parts <= n ->
  extends_with sends_nonblank h (tr_history (connect_loop w h conn parts)).
Proof.
  intros n. revert parts.
  induction n as [|n IH]; intros parts h conn Hlen.
  - destruct parts; [|simpl in Hlen; lia]. apply extends_refl.
  - destruct parts as [|new_db [|sql_block parts]]; [apply extends_refl..|].
    simpl in Hlen. simpl.
    pose proof (sends_close_if_open conn h) as Hc.
    destruct (connect_raises w (close_if_open conn h) new_db) as [e|].
    + simpl. now apply extends_cons.
    + assert (H2 : extends_with sends_nonblank h
        (EvPrint (connected_msg new_db)
         :: EvAutocommit (fresh_conn (close_if_open conn h))
         :: EvConnect (fresh_conn (close_if_open conn h)) new_db
         :: close_if_open conn h)).
      { now repeat (apply extends_cons; [reflexivity|]). }
      destruct (nonblank sql_block).
      * pose proof (sends_sql_statements w
          (EvPrint (connected_msg new_db)
           :: EvAutocommit (fresh_conn (close_if_open conn h))
           :: EvConnect (fresh_conn (close_if_open conn h)) new_db
           :: close_if_open conn h)
          (fresh_conn (close_if_open conn h)) sql_block) as H.
        destruct (execute_sql_statements w _ _ sql_block) as [h3 [e|]];
          simpl in H |- *.
        -- eapply extends_trans; eassumption.
        -- eapply extends_trans; [|apply IH; lia].
           eapply extends_trans; eassumption.
      * eapply extends_trans; [exact H2|apply IH; lia].
Qed.

Lemma sends_first_part (w : world) (h : history) (part0 : text) :
  extends_with sends_nonblank h (tr_history (first_part w h part0)).
Proof.
  unfold first_part. destruct (nonblank part0); [|apply extends_refl].
  destruct (connect_raises w h DB_CONFIG_dbname) as [e|].
  - simpl. apply extends_cons; [reflexivity|apply extends_refl].
  - pose proof (sends_sql_statements w
      (EvPrint (connected_msg DB_CONFIG_dbname) :: EvAutocommit (fresh_conn h)
       :: EvConnect (fresh_conn h) DB_CONFIG_dbname :: h)
      (fresh_conn h) part0) as H.
    destruct (execute_sql_statements w _ _ part0) as [h2 r]. simpl in *.
    eapply extends_trans; [|exact H].
    repeat (apply extends_cons; [reflexivity|]). apply extends_refl.
Qed.

Lemma sends_try_body (w : world) (h : history) (parts : list text) :
  extends_with sends_nonblank h (tr_history (try_body w h parts)).
Proof.
  unfold try_body. pose proof (sends_first_part w h (hd [] parts)) as H.
  destruct (tr_raised (first_part w h (hd [] parts))); [exact H|].
  eapply extends_trans; [exact H|].
  apply (sends_connect_loop w (tl parts) (List.length (tl parts))). lia.
Qed.

(** Whether it ends with an exception or not, the loop attempts the
    databases of the directives in order, up to some point. *)
Lemma attempted_connect_loop_prefix (w : world) (parts : list text) :
  forall n h conn, List.length parts <= n ->
  exists k,
    attempted_dbs (tr_history (connect_loop w h conn parts))
    = attempted_dbs h ++ firstn k (map fst (segment_pairs parts)).
Proof.
  intros n. revert parts.
  induction n as [|n IH]; intros parts h conn Hlen.
  - destruct parts; [|simpl in Hlen; lia]. exists 0. simpl.
    now rewrite app_nil_r.
  - destruct parts as [|new_db [|sql_block parts]];
      [exists 0; simpl; now rewrite app_nil_r..|].
    simpl in Hlen. simpl.
    destruct (connect_raises w (close_if_open conn h) new_db) as [e|].
    + exists 1. simpl. now rewrite attempted_close_if_open.
    + destruct (nonblank sql_block).
      * pose proof (attempted_sql_statements w
          (EvPrint (connected_msg new_db)
           :: EvAutocommit (fresh_conn (close_if_open conn h))
           :: EvConnect (fresh_conn (close_if_open conn h)) new_db
           :: close_if_open conn h)
          (fresh_conn (close_if_open conn h)) sql_block) as H.
        destruct (execute_sql_statements w _ _ sql_block) as [h3 [e|]];
          simpl in H |- *.
        -- exists 1. rewrite H. simpl. now rewrite attempted_close_if_open.
        -- destruct (IH parts h3 (Some (fresh_conn (close_if_open conn h))))
             as [k Hk]; [lia|].
           exists (S k). rewrite Hk, H. simpl.
           rewrite attempted_close_if_open. now rewrite <- app_assoc.
      * destruct (IH parts
           (EvPrint (connected_msg new_db)
            :: EvAutocommit (fresh_conn (close_if_open conn h))
            :: EvConnect (fresh_conn (close_if_open conn h)) new_db
            :: close_if_open conn h)
           (Some (fresh_conn (close_if_open conn h)))) as [k Hk]; [lia|].
        exists (S k). rewrite Hk. simpl.
        rewrite attempted_close_if_open. now rewrite <- app_assoc.
Qed.

(** C10. When the text before the first directive is empty or white space,
    the [try] block goes straight to the loop over the directives, with
    no connection and nothing added to the history: the only databases a
    run of such a file tries to connect to are those of its directives,
    in order.  A part of a segment and a statement that are blank are
    passed over.  Nothing blank is ever sent to a database in a run:
    every statement executed and every COPY command is non-blank. *)
Theorem blank_text_is_skipped (w : world) :
  (forall h parts, nonblank (hd [] parts) = false ->
     try_body w h parts = connect_loop w h None (tl parts)) /\
  (forall sql_file_path content,
     file_content w sql_file_path = Some content ->
     nonblank (hd [] (split_connect content)) = false ->
     exists k,
       attempted_dbs (fst (execute_sql_file w [] sql_file_path))
       = firstn k (map fst (segment_pairs (tl (split_connect content))))) /\
  (forall h c part rest, nonblank part = false ->
     execute_parts w h c (part :: rest) = execute_parts w h c rest) /\
  (forall h c statement rest, nonblank statement = false ->
     execute_statements w h c (statement :: rest)
     = execute_statements w h c rest) /\
  (forall sql_file_path,
     forallb sends_nonblank (fst (execute_sql_file w [] sql_file_path)) = true).
Proof.
  assert (Htry : forall h parts, nonblank (hd [] parts) = false ->
            try_body w h parts = connect_loop w h None (tl parts)).
  { intros h parts Hb. unfold try_body, first_part. now rewrite Hb. }
  split; [exact Htry|]. split; [|repeat split].
  - intros path content Hf Hb.
    rewrite (execute_sql_file_found w [] _ _ Hf). cbv zeta. unfold fst.
    rewrite attempted_finally, (Htry _ _ Hb).
    set (h1 := [EvPrint (str "Reading SQL file: " ++ path)]).
    destruct (attempted_connect_loop_prefix w (tl (split_connect content))
                (List.length (tl (split_connect content))) h1 None
                (Nat.le_refl _)) as [k Hk].
    exists k. exact Hk.
  - intros h c part rest Hb. simpl. now rewrite Hb.
  - intros h c s rest Hb. simpl. now rewrite Hb.
  - intros path. destruct (file_content w path) as [content|] eqn:Hf.
    + rewrite (execute_sql_file_found w [] _ _ Hf). cbv zeta. unfold fst.
      set (h1 := [EvPrint (str "Reading SQL file: " ++ path)]).
      destruct (sends_try_body w h1 (split_connect content))
        as (evs & Hevs & Hq).
      rewrite Hevs.
      destruct (tr_conn (try_body w h1 (split_connect content))); simpl;
        rewrite forallb_app, Hq; reflexivity.
    + now rewrite (execute_sql_file_missing w [] _ Hf).
Qed.

(** ** Two directives *)

Lemma ends_name_app (mid s : text) :
  ends_name mid = true -> ends_name (mid ++ backslash :: s) = true.
Proof. now destruct mid. Qed.

Lemma fresh_conn_close_if_open (conn : option nat) (h : history) :
  fresh_conn (close_if_open conn h) = fresh_conn h.
Proof. now destruct conn. Qed.

Lemma fresh_conn_statement_events (c : nat) (evs : list event) (h : history) :
  forallb (statement_event c) evs = true ->
  fresh_conn (evs ++ h) = fresh_conn h.
Proof.
  induction evs as [|e evs IH]; [reflexivity|]. simpl. intros H.
  apply andb_prop in H as [He Hq]. apply statement_event_on_conn in He.
  unfold fresh_conn in *. simpl.
  destruct e; try discriminate; simpl; now apply IH.
Qed.

(** One iteration of the loop that ends without an exception. *)
Lemma connect_loop_step
  (w : world) (h : history) (conn : option nat) (db block : text)
  (parts : list text) :
  tr_raised (connect_loop w h conn (db :: block :: parts)) = None ->
  exists evs,
    let c := fresh_conn h in
    let h' := segment_events c db evs ++ close_if_open conn h in
    forallb (statement_event c) evs = true /\
    fresh_conn h' = S c /\
    connect_loop w h conn (db :: block :: parts)
    = connect_loop w h' (Some c) parts.
Proof.
  simpl. rewrite fresh_conn_close_if_open.
  destruct (connect_raises w (close_if_open conn h) db) as [e|];
    [discriminate|].
  set (c := fresh_conn h).
  set (h2 := EvPrint (connected_msg db) :: EvAutocommit c :: EvConnect c db
             :: close_if_open conn h).
  assert (Hf : forall evs, forallb (statement_event c) evs = true ->
                 fresh_conn (segment_events c db evs ++ close_if_open conn h)
                 = S c).
  { intros evs Hq. unfold segment_events. rewrite <- app_assoc.
    rewrite (fresh_conn_statement_events c evs _ Hq).
    unfold fresh_conn. simpl. fold (fresh_conn (close_if_open conn h)).
    now rewrite fresh_conn_close_if_open. }
  destruct (nonblank block).
  - destruct (execute_sql_statements_events w h2 c block) as (evs & He & Hq).
    destruct (execute_sql_statements w h2 c block) as [h3 [e|]];
      [discriminate|].
    simpl in He. subst h3. intros _. exists evs.
    split; [exact Hq|]. split; [now apply Hf|].
    unfold segment_events. now rewrite <- app_assoc.
  - intros _. exists []. split; [reflexivity|]. split; [now apply Hf|].
    reflexivity.
Qed.

(** C5. A file with two directives, for [a] and then for [b], and none
    elsewhere, splits into the text before the first, [a] and the text
    after it, [b] and the text after it.  In a run that passes both, the
    statements of [a]'s text are executed on a connection [ca] to [a],
    [ca] is then closed, and a connection [cb] to [b], which is not [ca],
    is opened for the statements of [b]'s text. *)
Theorem two_directives_two_connections
  (pre ws1 a mid ws2 b post : text) :
  matches_nowhere match_connect pre = true ->
  matches_nowhere match_connect mid = true ->
  matches_nowhere match_connect post = true ->
  ws1 <> [] -> all_space ws1 = true -> a <> [] -> all_word a = true ->
  ws2 <> [] -> all_space ws2 = true -> b <> [] -> all_word b = true ->
  ends_name mid = true -> ends_name post = true ->
  let content := pre ++ directive ws1 a ++ mid ++ directive ws2 b ++ post in
  split_connect content = [pre; a; mid; b; post] /\
  segments content = [(DB_CONFIG_dbname, pre); (a, mid); (b, post)] /\
  forall w h conn,
    tr_raised (connect_loop w h conn (tl (split_connect content))) = None ->
    exists ca cb ea eb,
      ca <> cb /\
      forallb (statement_event ca) ea = true /\
      forallb (statement_event cb) eb = true /\
      tr_conn (connect_loop w h conn (tl (split_connect content))) = Some cb /\
      tr_history (connect_loop w h conn (tl (split_connect content)))
      = segment_events cb b eb ++ EvClose ca
        :: segment_events ca a ea ++ close_if_open conn h.
Proof.
  intros Hpre Hmid Hpost Hws1 Hs1 Ha Hwa Hws2 Hs2 Hb Hwb Hem Hep content.
  assert (Hsplit : split_connect content = [pre; a; mid; b; post]).
  { unfold content.
    rewrite (split_connect_directive pre ws1 a) by
      (auto; unfold directive; rewrite <- app_assoc; now apply ends_name_app).
    rewrite (split_connect_directive mid ws2 b) by auto.
    unfold split_connect.
    now rewrite (re_split_no_match match_connect post Hpost). }
  split; [exact Hsplit|]. split; [unfold segments; now rewrite Hsplit|].
  intros w h conn. rewrite Hsplit. simpl tl. intros Hr.
  destruct (connect_loop_step w h conn a mid [b; post] Hr)
    as (ea & Hqa & Hfa & Hea).
  cbv zeta in Hqa, Hfa, Hea. rewrite Hea in Hr |- *.
  destruct (connect_loop_step w _ (Some (fresh_conn h)) b post [] Hr)
    as (eb & Hqb & Hfb & Heb).
  cbv zeta in Hqb, Hfb, Heb. rewrite Heb. rewrite Hfa in *.
  exists (fresh_conn h), (S (fresh_conn h)), ea, eb.
  repeat split; auto; lia.
Qed.

(** ** The COPY block *)

Lemma starts_with_app (eq : ascii -> ascii -> bool) (p a s : text) :
  starts_with eq p a = true -> starts_with eq p (a ++ s) = true.
Proof.
  revert a. induction p as [|x p IH]; intros a H; [reflexivity|].
  destruct a as [|y a]; [discriminate|]. simpl in *.
  apply andb_prop in H as [Hxy Hp]. now rewrite Hxy, (IH _ Hp).
Qed.

Lemma starts_with_length (eq : ascii -> ascii -> bool) (p s : text) :
  starts_with eq p s = true -> List.length p <= List.length s.
Proof.
  revert s. induction p as [|x p IH]; intros s H; simpl; [lia|].
  destruct s as [|y s]; [discriminate|]. simpl in *.
  apply andb_prop in H as [_ Hp]. apply IH in Hp. lia.
Qed.

Lemma at_terminator_split (s rest : text) :
  at_terminator s = Some rest -> s = firstn 4 s ++ rest.
Proof.
  destruct s as [|a [|b [|x [|d s]]]]; try discriminate. simpl.
  destruct (ascii_eqb a nl && ascii_eqb b backslash && ascii_eqb d nl);
    [|discriminate].
  now intros [= ->].
Qed.

Lemma find_terminator_split (s : text) :
  forall data rest, find_terminator s = Some (data, rest) ->
  s = data ++ rest /\ data <> [].
Proof.
  induction s as [|c s IH]; intros data rest H.
  - simpl in H. discriminate.
  - cbn [find_terminator] in H.
    destruct (at_terminator (c :: s)) as [r|] eqn:Ha.
    + injection H as <- <-. split; [now apply at_terminator_split|].
      discriminate.
    + destruct (find_terminator s) as [[p r]|]; [|discriminate].
      injection H as <- <-. destruct (IH p r eq_refl) as [-> _].
      split; [reflexivity|discriminate].
Qed.

Lemma match_copy_header_split (s header rest : text) :
  match_copy_header s = Some (header, rest) ->
  s = header ++ rest /\ header <> [].
Proof.
  unfold match_copy_header.
  destruct (starts_with ci_eqb (str "COPY") s) eqn:Hs; [|discriminate].
  apply starts_with_length in Hs. change (List.length (str "COPY")) with 4 in Hs.
  pose proof (firstn_skipn 4 s) as Hfs.
  pose proof (take_drop_while not_semicolon (skipn 4 s)) as Ht.
  assert (Hk : firstn 4 s <> []).
  { destruct s as [|c s]; [simpl in Hs; lia|]. discriminate. }
  revert Hfs Ht Hk.
  generalize (firstn 4 s) as kw. generalize (skipn 4 s) as after.
  intros after kw Hfs Ht Hk.
  destruct (drop_while not_semicolon after) as [|sc r]; [discriminate|].
  destruct (copy_header_body (take_while not_semicolon after));
    [|discriminate].
  intros [= <- <-]. split.
  - rewrite <- !app_assoc. change ([sc] ++ r) with (sc :: r).
    now rewrite Ht.
  - now destruct kw.
Qed.

Lemma match_copy_block_consuming : consuming match_copy_block.
Proof.
  intros s group rest H. unfold match_copy_block in H.
  destruct (match_copy_header s) as [[header r]|] eqn:Hh; [|discriminate].
  destruct (find_terminator r) as [[data r']|] eqn:Hf; [|discriminate].
  injection H as _ <-.
  apply match_copy_header_split in Hh as [-> Hne].
  apply find_terminator_split in Hf as [-> _].
  rewrite !length_app. destruct header; [easy|simpl; lia].
Qed.

Lemma match_copy_header_exact (kw body rest : text) :
  is_copy_header kw body = true ->
  match_copy_header (copy_header kw body ++ rest)
  = Some (copy_header kw body, rest).
Proof.
  unfold is_copy_header. intros H.
  apply andb_prop in H as [H _]. apply andb_prop in H as [H Hb].
  apply andb_prop in H as [H Hns]. apply andb_prop in H as [Hl Hk].
  apply Nat.eqb_eq in Hl.
  unfold match_copy_header, copy_header. rewrite <- !app_assoc.
  rewrite (starts_with_app _ _ _ _ Hk).
  assert (Hskip : skipn 4 (kw ++ body ++ [semicolon] ++ rest)
                  = body ++ semicolon :: rest).
  { rewrite skipn_app, Hl, Nat.sub_diag. rewrite <- Hl at 1.
    now rewrite skipn_all. }
  assert (Hfirst : firstn 4 (kw ++ body ++ [semicolon] ++ rest) = kw).
  { rewrite firstn_app, Hl, Nat.sub_diag. rewrite <- Hl at 1.
    rewrite firstn_all. simpl. now rewrite app_nil_r. }
  rewrite Hskip, Hfirst.
  destruct (take_while_all not_semicolon body (semicolon :: rest) Hns eq_refl)
    as [-> ->].
  now rewrite Hb.
Qed.

Lemma at_terminator_not_newline (c : ascii) (s : text) :
  ascii_eqb c nl = false -> at_terminator (c :: s) = None.
Proof.
  intros Hc. destruct s as [|b [|x [|d s]]]; simpl; try reflexivity.
  now rewrite Hc.
Qed.

Lemma find_terminator_skip (r t : text) :
  has_newline r = false ->
  find_terminator (r ++ t) =
  match find_terminator t with
  | Some (p, q) => Some (r ++ p, q)
  | None => None
  end.
Proof.
  induction r as [|c r IH]; intros H.
  - simpl app. now destruct (find_terminator t) as [[p q]|].
  - simpl in H. apply orb_false_elim in H as [Hc Hr].
    simpl app. cbn [find_terminator].
    rewrite (at_terminator_not_newline c _ Hc), (IH Hr).
    now destruct (find_terminator t) as [[p q]|].
Qed.

Lemma data_row_line (r : text) : data_row r = true -> has_newline r = false.
Proof.
  unfold data_row. intros H. apply andb_prop in H as [H _].
  apply andb_prop in H as [H _]. now apply negb_true_iff in H.
Qed.

Lemma data_row_short (x : ascii) (r : text) :
  data_row (x :: r) = true -> List.length r <= 1 ->
  ascii_eqb x backslash = false.
Proof.
  unfold data_row. intros H Hl. apply andb_prop in H as [_ Hb].
  apply negb_true_iff in Hb. apply ascii_eqb_neq. intros ->.
  destruct r as [|y [|z r]]; [discriminate..|simpl in Hl; lia].
Qed.

Lemma at_terminator_row (r t : text) :
  data_row r = true -> at_terminator (nl :: r ++ nl :: t) = None.
Proof.
  intros H. pose proof (data_row_line r H) as Hn.
  destruct r as [|x [|y [|z r]]].
  - now destruct t as [|? [|? ?]].
  - pose proof (data_row_short x [] H (Nat.le_0_l 1)) as Hx.
    cbn [app at_terminator]. rewrite Hx.
    now destruct t.
  - pose proof (data_row_short x [y] H (Nat.le_refl 1)) as Hx.
    cbn [app at_terminator]. now rewrite Hx.
  - unfold has_newline in Hn. cbn [existsb] in Hn.
    apply orb_false_elim in Hn as [_ Hn]. apply orb_false_elim in Hn as [_ Hn].
    apply orb_false_elim in Hn as [Hz _].
    cbn [app at_terminator]. now rewrite Hz, andb_false_r.
Qed.

Lemma rows_text_head (rows : list text) (t : text) :
  exists t', rows_text rows ++ nl :: t = nl :: t'.
Proof.
  destruct rows as [|r rows]; [now exists t|].
  unfold rows_text. simpl. eexists. reflexivity.
Qed.

Lemma rows_text_cons (r : text) (rows : list text) (t : text) :
  rows_text (r :: rows) ++ t = nl :: r ++ rows_text rows ++ t.
Proof. unfold rows_text. simpl. now rewrite <- app_assoc. Qed.

(** The lazy scan for the terminator goes past all the data rows. *)
Lemma find_terminator_rows (rows : list text) (post : text) :
  forallb data_row rows = true ->
  find_terminator (rows_text rows ++ nl :: terminator_line ++ nl :: post)
  = Some (rows_text rows ++ nl :: terminator_line ++ [nl], post).
Proof.
  induction rows as [|r rows IH]; intros H; [reflexivity|].
  simpl in H. apply andb_prop in H as [Hr Hrows].
  rewrite !rows_text_cons.
  destruct (rows_text_head rows (terminator_line ++ nl :: post)) as [t' Ht].
  specialize (IH Hrows). revert IH Ht.
  generalize (rows_text rows ++ nl :: terminator_line ++ nl :: post) as t.
  intros t IH ->. cbn [find_terminator].
  rewrite (at_terminator_row r t' Hr).
  now rewrite (find_terminator_skip r _ (data_row_line r Hr)), IH.
Qed.

Lemma split_lines_block (rows : list text) :
  forall l, has_newline l = false -> forallb data_row rows = true ->
  split_lines (l ++ rows_text rows ++ nl :: terminator_line ++ [nl])
  = l :: rows ++ [terminator_line; []].
Proof.
  induction rows as [|r rows IH]; intros l Hl H.
  - simpl app. now rewrite (split_lines_app _ _ Hl).
  - simpl in H. apply andb_prop in H as [Hr Hrows].
    rewrite rows_text_cons, (split_lines_app _ _ Hl).
    now rewrite (IH r (data_row_line r Hr) Hrows).
Qed.

Lemma copy_data_lines_rows (rows : list text) :
  forall in_data, forallb data_row rows = true ->
  copy_data_lines in_data (rows ++ [terminator_line; []])
  = if in_data then rows else drop_leading_blank rows.
Proof.
  induction rows as [|r rows IH]; intros in_data H.
  - now destruct in_data.
  - simpl in H. apply andb_prop in H as [Hr Hrows].
    assert (Ht : text_eqb (strip r) [backslash; dot] = false).
    { unfold data_row in Hr. apply andb_prop in Hr as [Hr _].
      apply andb_prop in Hr as [_ Hr]. now apply negb_true_iff in Hr. }
    simpl. rewrite Ht.
    destruct in_data; simpl.
    + now rewrite (IH true Hrows).
    + destruct (nonblank r); [now rewrite (IH true Hrows)|].
      now rewrite (IH false Hrows).
Qed.

Lemma is_copy_part_nonblank (part : text) :
  is_copy_part part = true -> nonblank part = true.
Proof.
  unfold is_copy_part, match_copy_header. intros H.
  destruct (starts_with ci_eqb (str "COPY") part) eqn:Hs; [|discriminate].
  clear H. destruct part as [|c part]; [discriminate|].
  simpl in Hs. apply andb_prop in Hs as [Hc _].
  apply nonblank_head. clear - Hc.
  destruct c as [[] [] [] [] [] [] [] []]; vm_compute in Hc |- *;
    (discriminate || reflexivity).
Qed.

Lemma execute_parts_cons (w : world) (h : history) (c : nat) (p : text)
  (rest : list text) :
  execute_parts w h c (p :: rest) =
  match execute_parts w h c [p] with
  | (h', None) => execute_parts w h' c rest
  | (h', Some e) => (h', Some e)
  end.
Proof.
  simpl. destruct (nonblank p); simpl; [|reflexivity].
  destruct (is_copy_part p); [reflexivity|].
  now destruct (execute_statements w h c (split_sql_statements p))
    as [h' [e|]].
Qed.

Lemma copy_block_match (kw body : text) (rows : list text) (post : text) :
  is_copy_header kw body = true -> forallb data_row rows = true ->
  match_copy_block (copy_block (copy_header kw body) rows ++ post)
  = Some (copy_block (copy_header kw body) rows, post).
Proof.
  intros Hh Hrows. unfold match_copy_block, copy_block.
  rewrite <- !app_assoc.
  rewrite (match_copy_header_exact kw body _ Hh).
  change ((nl :: terminator_line ++ [nl]) ++ post)
    with (nl :: terminator_line ++ nl :: post).
  now rewrite (find_terminator_rows rows post Hrows).
Qed.

Lemma execute_copy_block (w : world) (h : history) (c : nat)
  (kw body : text) (rows : list text) :
  is_copy_header kw body = true -> forallb data_row rows = true ->
  execute_copy w h c (copy_block (copy_header kw body) rows)
  = copy_events w h c (copy_header kw body)
      (join_lines (drop_leading_blank rows)) ++ h.
Proof.
  intros Hh Hrows.
  assert (Hn : has_newline (copy_header kw body) = false).
  { unfold is_copy_header in Hh. apply andb_prop in Hh as [_ Hh].
    now apply negb_true_iff in Hh. }
  unfold execute_copy, copy_block, copy_events.
  rewrite (split_lines_block rows _ Hn Hrows).
  cbn [hd tl]. rewrite (copy_data_lines_rows rows false Hrows).
  now destruct (copy_raises w h c _ _).
Qed.

(** C3, as amended.  A block made of a one-line header, data rows and the
    terminator line, in a text where the COPY pattern matches at no
    position before the block, is one part of the split.  It is executed
    as exactly one COPY operation, with the header as the command and
    as data the rows joined by newlines, without the blank rows at their
    start; the statement splitter sees only the text before the block
    and the text after it.  (Rows that are the terminator with white
    space around it, or a backslash with at most one more character, are
    outside this statement.) *)
Theorem copy_block_one_operation
  (pre kw body : text) (rows : list text) (post : text) :
  is_copy_header kw body = true ->
  forallb data_row rows = true ->
  no_match_before match_copy_block pre
    (copy_block (copy_header kw body) rows ++ post) = true ->
  let header := copy_header kw body in
  let block := copy_block header rows in
  split_copy (pre ++ block ++ post) = pre :: block :: split_copy post /\
  forall w h c,
    execute_parts w h c (split_copy (pre ++ block ++ post)) =
    match execute_parts w h c [pre] with
    | (h', None) =>
        execute_parts w
          (copy_events w h' c header (join_lines (drop_leading_blank rows))
           ++ h') c (split_copy post)
    | (h', Some e) => (h', Some e)
    end.
Proof.
  intros Hh Hrows Hpre header block.
  assert (Hsplit : split_copy (pre ++ block ++ post)
                   = pre :: block :: split_copy post).
  { unfold split_copy, block, header.
    rewrite (re_split_prefix match_copy_block _ _ Hpre).
    rewrite (re_split_match match_copy_block match_copy_block_consuming
               _ _ _ (copy_block_match kw body rows post Hh Hrows)).
    simpl. now rewrite app_nil_r. }
  split; [exact Hsplit|].
  intros w h c. rewrite Hsplit, execute_parts_cons.
  destruct (execute_parts w h c [pre]) as [h' [e|]]; [reflexivity|].
  assert (Hc : is_copy_part block = true).
  { unfold is_copy_part, block, header, copy_block.
    now rewrite (match_copy_header_exact kw body _ Hh). }
  cbn [execute_parts]. rewrite (is_copy_part_nonblank _ Hc), Hc.
  cbn [negb]. unfold block, header.
  now rewrite (execute_copy_block w h' c kw body rows Hh Hrows).
Qed.

(** ** Dollar-quoted bodies *)

(** A statement is emitted by a step only when no tag is active after the
    line has been looked at, and the line ends in a semicolon. *)
Lemma split_step_emits (st : split_state) (line : text) :
  statements (split_step st line) <> statements st ->
  dollar_quote (split_step st line) = None /\ ends_statement line = true /\
  statements (split_step st line)
  = statements st ++ [current st ++ line ++ [nl]].
Proof.
  unfold split_step, ends_statement.
  destruct (update_dollar_quote (dollar_quote st) line); simpl; [easy|].
  destruct (ends_with [semicolon] (strip line)); simpl; [now auto|easy].
Qed.

(** A body that opens on one line, with the tag as the first marker of that
    line, and closes on a later line that ends the statement: from a
    fresh state the whole statement is emitted as one. *)
Lemma split_dollar_body_single
  (pre name rest closing : text) (body : list text) :
  no_dollar pre -> no_dollar name ->
  let tag := dollar :: name ++ [dollar] in
  let opening := pre ++ tag ++ rest in
  forallb (fun l => negb (has_newline l)) (opening :: body ++ [closing]) = true ->
  Forall (fun l => contains tag l = false) body ->
  contains tag closing = true -> ends_statement closing = true ->
  split_sql_statements (join_lines (opening :: body ++ [closing]))
  = [with_newlines (opening :: body ++ [closing])].
Proof.
  intros Hpre Hname tag opening Hnl Hbody Hclose Hend.
  unfold split_sql_statements.
  rewrite split_lines_join by (discriminate || exact Hnl).
  rewrite split_loop_cons.
  assert (Hstep : split_step split_init opening =
    {| statements := []; current := opening ++ [nl];
       dollar_quote := Some tag |}).
  { unfold split_step, update_dollar_quote, opening, tag.
    simpl. rewrite <- app_assoc. simpl.
    now rewrite (search_dollar_quote_first pre name rest Hpre Hname). }
  rewrite Hstep, split_loop_app.
  rewrite (split_loop_suppressed tag body
             {| statements := []; current := opening ++ [nl];
                dollar_quote := Some tag |} eq_refl Hbody).
  cbn [statements current dollar_quote].
  unfold split_loop. cbn [fold_left].
  unfold split_step, update_dollar_quote. cbn [statements current dollar_quote].
  pose proof (search_dollar_quote_contains name closing Hclose) as Hs.
  destruct (search_dollar_quote closing); [|congruence].
  fold tag. rewrite Hclose. unfold ends_statement in Hend. rewrite Hend.
  unfold split_finish. cbn [statements current].
  change (nonblank []) with false. cbv iota. cbn [app]. f_equal.
  change (with_newlines (opening :: body ++ [closing]))
    with ((opening ++ [nl]) ++ with_newlines (body ++ [closing])).
  rewrite with_newlines_app.
  change (with_newlines [closing]) with ((closing ++ [nl]) ++ []).
  now rewrite app_nil_r, <- !app_assoc.
Qed.

(** C1, at a failing input.  After a statement whose dollar-quoted body
    opens and closes on one line, the tag is still active; the opening
    line of the next function clears it, and that function is then cut
    at the semicolons inside its body: the two statements come out as
    three pieces, the second function spread over all three. *)
Theorem split_cuts_function_body :
  split_sql_statements (join_lines two_functions)
  = [ with_newlines (firstn 4 two_functions);
      with_newlines [str "END;"];
      with_newlines [str "$$ LANGUAGE plpgsql;"] ].
Proof. vm_compute. reflexivity. Qed.

(** ** Concrete runs *)

(** C2 as the specification words it does not hold: a statement that raises
    "relation t already exists" is rolled back without a line being
    printed. *)
Lemma already_exists_is_silent :
  let w := failing_world [] (DbError relation_exists) in
  execute_raises w [] 0 create_table = Some (DbError relation_exists) /\
  already_exists relation_exists = true /\
  fst (execute_statements w [] 0 [create_table])
  = [EvRollback 0; EvExecute 0 create_table (Some (DbError relation_exists))] /\
  printed (fst (execute_statements w [] 0 [create_table])) = [].
Proof. vm_compute. repeat split. Qed.

Lemma database_error_is_not_fatal_witness :
  let w := failing_world [] (DbError relation_exists) in
  nonblank create_table = true /\
  execute_statements w [] 0 [create_table; str "SELECT 1;"]
  = execute_statements w
      [EvRollback 0; EvExecute 0 create_table (Some (DbError relation_exists))]
      0 [str "SELECT 1;"] /\
  executed (fst (execute_statements w [] 0 [create_table; str "SELECT 1;"]))
  = [create_table; str "SELECT 1;"].
Proof.
  split; [reflexivity|].
  pose proof (database_error_is_not_fatal
                (failing_world [] (DbError relation_exists)) [] 0 create_table
                relation_exists [str "SELECT 1;"] eq_refl eq_refl) as [H1 H2].
  split; [exact H1|].
  apply H2. intros hx s m. discriminate.
Defined.

(** Three statements of which the second fails with "already exists": all
    three are executed, the first and the third are committed, the second
    is rolled back. *)
Example second_of_three_fails :
  let s1 := str "CREATE TABLE s (a int);" in
  let s3 := str "INSERT INTO t VALUES (1);" in
  let w :=
    {| file_content := fun _ => None;
       connect_raises := fun _ _ => None;
       execute_raises := fun _ _ s =>
         if text_eqb s (with_newlines [create_table])
         then Some (DbError relation_exists) else None;
       copy_raises := fun _ _ _ _ => None |} in
  execute_sql_statements w [] 0 (join_lines [s1; create_table; s3])
  = ([EvCursorClose 0;
      EvCommit 0; EvExecute 0 (with_newlines [s3]) None;
      EvRollback 0;
      EvExecute 0 (with_newlines [create_table]) (Some (DbError relation_exists));
      EvCommit 0; EvExecute 0 (with_newlines [s1]) None;
      EvCursor 0], None).
Proof. vm_compute. reflexivity. Qed.



(** C3 as the specification words it does not hold: of the two data rows
    of this block, an empty row and the row [x], the COPY operation carries only the
    second. *)
Lemma leading_blank_row_is_dropped :
  let rows := [[]; str "x"] in
  let w := quiet_world [] in
  copied (fst (execute_sql_statements w [] 0 (copy_block copy_t rows)))
  = [(copy_t, str "x")] /\
  join_lines rows <> str "x".
Proof. split; [vm_compute; reflexivity|discriminate]. Qed.

Lemma copy_block_one_operation_witness :
  let pre := with_newlines [str "CREATE TABLE t (a int, b int);"] in
  let rows := [str "1,2"; []; str "3,4"] in
  let post := with_newlines [str "SELECT 2;"] in
  let block := copy_block copy_t rows in
  is_copy_header (str "COPY") (str " t (a, b) FROM stdin") = true /\
  forallb data_row rows = true /\
  no_match_before match_copy_block pre (block ++ post) = true /\
  split_copy (pre ++ block ++ post) = [pre; block; post] /\
  copied (fst (execute_sql_statements (quiet_world []) [] 0
                 (pre ++ block ++ post)))
  = [(copy_t, join_lines rows)].
Proof.
  split; [reflexivity|]. split; [reflexivity|]. split; [reflexivity|].
  split.
  - exact (proj1 (copy_block_one_operation
             (with_newlines [str "CREATE TABLE t (a int, b int);"])
             (str "COPY") (str " t (a, b) FROM stdin")
             [str "1,2"; []; str "3,4"] (with_newlines [str "SELECT 2;"])
             eq_refl eq_refl eq_refl)).
  - reflexivity.
Defined.

Lemma no_directive_one_segment_witness :
  let content := with_newlines [create_table; str "SELECT 1;"] in
  matches_nowhere match_connect content = true /\
  segments content = [(DB_CONFIG_dbname, content)] /\
  attempted_dbs (fst (execute_sql_file (quiet_world content) [] flights_sql))
  = [DB_CONFIG_dbname].
Proof.
  split; [reflexivity|]. split.
  - exact (proj1 (no_directive_one_segment
             (with_newlines [create_table; str "SELECT 1;"]) eq_refl)).
  - exact (proj2 (no_directive_one_segment
             (with_newlines [create_table; str "SELECT 1;"]) eq_refl)
             (quiet_world (with_newlines [create_table; str "SELECT 1;"]))
             flights_sql eq_refl).
Defined.

Lemma two_directives_two_connections_witness :
  let pre := with_newlines [str "CREATE DATABASE demo;"] in
  let mid := nl :: with_newlines [str "SELECT 1;"] in
  let post := nl :: with_newlines [str "SELECT 2;"] in
  let content := pre ++ directive (str " ") (str "demo") ++ mid
                 ++ directive (str "  ") (str "other") ++ post in
  let r := connect_loop (quiet_world content) [] None
             (tl (split_connect content)) in
  split_connect content = [pre; str "demo"; mid; str "other"; post] /\
  segments content
  = [(DB_CONFIG_dbname, pre); (str "demo", mid); (str "other", post)] /\
  exists ca cb ea eb,
    ca <> cb /\
    forallb (statement_event ca) ea = true /\
    forallb (statement_event cb) eb = true /\
    tr_conn r = Some cb /\
    tr_history r
    = segment_events cb (str "other") eb ++ EvClose ca
      :: segment_events ca (str "demo") ea ++ [].
Proof.
  pose proof (two_directives_two_connections
    (with_newlines [str "CREATE DATABASE demo;"])
    (str " ") (str "demo") (nl :: with_newlines [str "SELECT 1;"])
    (str "  ") (str "other") (nl :: with_newlines [str "SELECT 2;"])
    eq_refl eq_refl eq_refl
    ltac:(discriminate) eq_refl ltac:(discriminate) eq_refl
    ltac:(discriminate) eq_refl ltac:(discriminate) eq_refl
    eq_refl eq_refl) as H.
  cbv zeta in H. destruct H as (H1 & H2 & H3).
  split; [exact H1|]. split; [exact H2|].
  apply (H3 (quiet_world _) [] None). vm_compute. reflexivity.
Defined.

Lemma split_ordinary_round_trip_witness :
  let stmts := [[create_table]; [str "SELECT a"; str "  FROM t; "];
                [str "DROP TABLE t;"]] in
  forallb ordinary_statement stmts = true /\
  split_sql_statements (join_lines (List.concat stmts))
  = map with_newlines stmts /\
  List.concat (split_sql_statements (join_lines (List.concat stmts)))
  = join_lines (List.concat stmts) ++ [nl].
Proof.
  split; [reflexivity|].
  exact (proj2 (split_ordinary_round_trip
                  [[create_table]; [str "SELECT a"; str "  FROM t; "];
                   [str "DROP TABLE t;"]])
           ltac:(discriminate) eq_refl).
Defined.

Lemma split_same_line_tag_stays_active_witness :
  let line := str "CREATE FUNCTION now() RETURNS int AS $$SELECT 1;$$;" in
  let ls := [create_table; str "SELECT 1;"] in
  split_loop split_init (line :: ls) =
  {| statements := [];
     current := with_newlines (line :: ls);
     dollar_quote := Some (str "$$") |}.
Proof.
  pose proof (split_same_line_tag_stays_active split_init
    (str "CREATE FUNCTION now() RETURNS int AS ") [] (str "SELECT 1;$$;")
    [create_table; str "SELECT 1;"] eq_refl
    ltac:(repeat constructor; discriminate) ltac:(constructor)
    ltac:(repeat constructor)) as H.
  cbv zeta in H. destruct H as (_ & H & _). exact H.
Defined.

Lemma blank_text_is_skipped_witness :
  let w := quiet_world [] in
  execute_parts w [] 0 [str "  "; str "SELECT 1;"]
  = execute_parts w [] 0 [str "SELECT 1;"] /\
  try_body w [] [str " "; str "demo"; str "SELECT 1;"]
  = connect_loop w [] None [str "demo"; str "SELECT 1;"].
Proof.
  split.
  - exact (proj1 (proj2 (proj2 (blank_text_is_skipped (quiet_world []))))
             [] 0 (str "  ") [str "SELECT 1;"] eq_refl).
  - exact (proj1 (blank_text_is_skipped (quiet_world []))
             [] [str " "; str "demo"; str "SELECT 1;"] eq_refl).
Defined.


(** A data row made of a backslash and one character, such as the NULL of
    a one-column table, is taken for the terminator by the pattern of
    the block: the block ends there, and the rows after it are executed as
    a statement. *)
Example backslash_row_ends_block :
  let rows := [str "1"; str "\N"; str "2"] in
  let h := fst (execute_sql_statements (quiet_world []) [] 0
                  (copy_block copy_t rows)) in
  copied h = [(copy_t, join_lines [str "1"; str "\N"; []])] /\
  executed h = [with_newlines [str "2"; terminator_line; []]].
Proof. vm_compute. split; reflexivity. Qed.

(** * Further properties of the runner *)

(** ** Blank text and the shape of the emitted statements *)

Lemma drop_while_nil (p : ascii -> bool) (s : text) :
  drop_while p s = [] <-> forallb p s = true.
Proof.
  induction s as [|c s IH]; simpl; [easy|].
  destruct (p c); simpl; [exact IH|easy].
Qed.

Lemma drop_while_head (p : ascii -> bool) (s : text) (c : ascii) (d : text) :
  drop_while p s = c :: d -> p c = false.
Proof.
  induction s as [|x s IH]; simpl; [discriminate|].
  destruct (p x) eqn:Hx; [exact IH|]. now intros [= <- _].
Qed.

Lemma drop_while_app_found (p : ascii -> bool) (a b : text) :
  drop_while p a <> [] -> drop_while p (a ++ b) = drop_while p a ++ b.
Proof.
  induction a as [|x a IH]; simpl; [easy|].
  destruct (p x); [exact IH|reflexivity].
Qed.

(** [s.strip()] is empty exactly when [s] is white space throughout. *)
Lemma nonblank_spec (s : text) : nonblank s = negb (forallb is_space s).
Proof.
  unfold nonblank, strip.
  destruct (forallb is_space s) eqn:H.
  - apply drop_while_nil in H. now rewrite H.
  - destruct (drop_while is_space s) as [|c d] eqn:Hd.
    + apply drop_while_nil in Hd. congruence.
    + pose proof (drop_while_head _ _ _ _ Hd) as Hc.
      simpl rev.
      pose proof (drop_while_found is_space (rev d) [] c Hc) as Hne.
      destruct (drop_while is_space (rev d ++ [c])) as [|x r]; [easy|].
      simpl. now destruct (rev r).
Qed.

Lemma nonblank_app (a b : text) : nonblank (a ++ b) = nonblank a || nonblank b.
Proof.
  rewrite !nonblank_spec, forallb_app. now destruct (forallb is_space a).
Qed.

Lemma ends_statement_nonblank (l : text) :
  ends_statement l = true -> nonblank l = true.
Proof.
  unfold ends_statement, nonblank. now destruct (strip l).
Qed.

(** The statements emitted so far are not blank. *)
Lemma split_loop_nonblank (lines : list text) :
  forall st, forallb nonblank (statements st) = true ->
  forallb nonblank (statements (split_loop st lines)) = true.
Proof.
  induction lines as [|l lines IH]; intros st H; [exact H|].
  rewrite split_loop_cons. apply IH. unfold split_step.
  destruct (update_dollar_quote (dollar_quote st) l); [exact H|].
  destruct (ends_with [semicolon] (strip l)) eqn:He; [|exact H].
  cbn [statements]. rewrite forallb_app, H. simpl.
  rewrite !nonblank_app, (ends_statement_nonblank l He).
  now rewrite orb_true_r.
Qed.

(** No statement that [split_sql_statements] returns is blank. *)
Lemma split_statements_nonblank (sql_text : text) :
  forallb nonblank (split_sql_statements sql_text) = true.
Proof.
  unfold split_sql_statements, split_finish.
  pose proof (split_loop_nonblank (split_lines sql_text) split_init eq_refl)
    as H.
  destruct (nonblank (current (split_loop split_init (split_lines sql_text))))
    eqn:Hc; [|exact H].
  now rewrite forallb_app, H; simpl; rewrite Hc.
Qed.

Lemma forallb_take_while (p : ascii -> bool) (s : text) :
  forallb p (take_while p s) = true.
Proof.
  induction s as [|c s IH]; simpl; [reflexivity|].
  destruct (p c) eqn:Hc; simpl; [now rewrite Hc|reflexivity].
Qed.

Lemma forallb_rev_text (p : ascii -> bool) (s : text) :
  forallb p s = true -> forallb p (rev s) = true.
Proof.
  rewrite !forallb_forall. intros H x Hx. apply H. now apply in_rev.
Qed.

(** [s.strip().endswith(';')] looks at the last character of [s] that is
    not white space. *)
Lemma ends_statement_last (s : text) :
  ends_statement s
  = starts_with ascii_eqb [semicolon] (drop_while is_space (rev s)).
Proof.
  unfold ends_statement, ends_with, strip. rewrite rev_involutive.
  rewrite <- (take_drop_while is_space s) at 2. rewrite rev_app_distr.
  pose proof (forallb_rev_text _ _ (forallb_take_while is_space s)) as Hws.
  destruct (drop_while is_space (rev (drop_while is_space s))) as [|x e] eqn:He.
  - apply drop_while_nil in He.
    assert (H : drop_while is_space
                  (rev (drop_while is_space s) ++ rev (take_while is_space s))
                = []).
    { apply drop_while_nil. now rewrite forallb_app, He, Hws. }
    now rewrite H.
  - rewrite drop_while_app_found by (rewrite He; discriminate).
    rewrite He. simpl. now destruct (ascii_eqb semicolon x).
Qed.

(** A buffer that ends with a line ending in a semicolon ends in a
    semicolon. *)
Lemma ends_statement_buffer (cur l : text) :
  ends_statement l = true -> ends_statement (cur ++ l ++ [nl]) = true.
Proof.
  rewrite !ends_statement_last. intros H.
  rewrite !rev_app_distr. simpl rev. simpl app.
  change (drop_while is_space (nl :: rev l ++ rev cur))
    with (drop_while is_space (rev l ++ rev cur)).
  rewrite drop_while_app_found.
  - now apply starts_with_app.
  - now destruct (drop_while is_space (rev l)).
Qed.

Lemma split_loop_ends_statement (lines : list text) :
  forall st, forallb ends_statement (statements st) = true ->
  forallb ends_statement (statements (split_loop st lines)) = true.
Proof.
  induction lines as [|l lines IH]; intros st H; [exact H|].
  rewrite split_loop_cons. apply IH. unfold split_step.
  destruct (update_dollar_quote (dollar_quote st) l); [exact H|].
  destruct (ends_with [semicolon] (strip l)) eqn:He; [|exact H].
  cbn [statements]. rewrite forallb_app, H. simpl.
  now rewrite (ends_statement_buffer (current st) l He).
Qed.

(** X1. No statement that [split_sql_statements] returns is blank, so every
    one of them passes the test [if statement.strip()] of its caller; and
    every one of them, except possibly the last, ends in a semicolon, white
    space aside. *)
Theorem split_statements_shape (sql_text : text) :
  forallb nonblank (split_sql_statements sql_text) = true /\
  exists emitted trailing,
    split_sql_statements sql_text = emitted ++ trailing /\
    forallb ends_statement emitted = true /\
    List.length trailing <= 1.
Proof.
  split; [apply split_statements_nonblank|].
  unfold split_sql_statements, split_finish.
  pose proof (split_loop_ends_statement (split_lines sql_text) split_init
                eq_refl) as H.
  destruct (nonblank (current (split_loop split_init (split_lines sql_text)))).
  - eexists _, [_]. split; [reflexivity|]. split; [exact H|simpl; lia].
  - eexists _, []. split; [now rewrite app_nil_r|]. split; [exact H|simpl; lia].
Qed.

Lemma forallb_concat_nonblank (l : list text) :
  forallb nonblank l = true -> l <> [] -> nonblank (List.concat l) = true.
Proof.
  destruct l as [|s l]; [easy|]. simpl. intros H _.
  apply andb_prop in H as [Hs _]. now rewrite nonblank_app, Hs.
Qed.

Lemma split_sql_statements_blank (sql_text : text) :
  nonblank sql_text = false -> split_sql_statements sql_text = [].
Proof.
  intros Hb.
  destruct (split_sql_statements sql_text) as [|s l] eqn:Hs; [reflexivity|].
  exfalso.
  assert (Hcat : nonblank (List.concat (split_sql_statements sql_text)) = true).
  { apply forallb_concat_nonblank; [apply split_statements_nonblank|].
    rewrite Hs. discriminate. }
  assert (Hall : exists r,
             List.concat (split_sql_statements sql_text) ++ r
             = sql_text ++ [nl]).
  { unfold split_sql_statements, split_finish.
    pose proof (split_loop_keeps_text (split_lines sql_text) split_init) as H.
    rewrite (with_newlines_join _ (split_lines_nonempty sql_text)) in H.
    rewrite join_split_lines in H. simpl in H.
    destruct (nonblank (current (split_loop split_init (split_lines sql_text)))).
    - exists []. now rewrite app_nil_r, concat_app, <- H; simpl;
        rewrite app_nil_r.
    - eexists. exact H. }
  destruct Hall as [r Hr].
  assert (Hn : nonblank (sql_text ++ [nl]) = false).
  { rewrite nonblank_app, Hb. reflexivity. }
  rewrite <- Hr, nonblank_app, Hcat in Hn. discriminate.
Qed.

(** X2. For an empty text and for a text of white space only,
    [split_sql_statements] returns the empty list, and
    [execute_sql_statements] sends nothing to the server: it opens a
    cursor and closes it. *)
Theorem split_blank_is_empty (w : world) (h : history) (c : nat)
  (sql_text : text) :
  nonblank sql_text = false ->
  split_sql_statements sql_text = [] /\
  execute_sql_statements w h c sql_text
  = (EvCursorClose c :: EvCursor c :: h, None).
Proof.
  intros Hb. split; [now apply split_sql_statements_blank|].
  unfold execute_sql_statements.
  assert (Hp : forall parts, forallb (fun p => negb (nonblank p)) parts = true ->
                 execute_parts w (EvCursor c :: h) c parts
                 = (EvCursor c :: h, None)).
  { induction parts as [|p parts IH]; [reflexivity|]. simpl. intros H.
    apply andb_prop in H as [Hp Hps]. rewrite Hp. now apply IH. }
  rewrite Hp; [reflexivity|].
  assert (Hs : forallb is_space sql_text = true).
  { rewrite nonblank_spec in Hb. now apply negb_false_iff in Hb. }
  assert (Hn : matches_nowhere match_copy_block sql_text = true).
  { clear Hb. induction sql_text as [|x s IH]; [reflexivity|].
    simpl in Hs. apply andb_prop in Hs as [Hx Hs].
    cbn [matches_nowhere].
    assert (Hm : match_copy_block (x :: s) = None).
    { unfold match_copy_block, match_copy_header. cbn [starts_with str
        list_ascii_of_string].
      replace (ci_eqb "C" x) with false; [reflexivity|].
      clear - Hx. destruct x as [[] [] [] [] [] [] [] []];
        vm_compute in Hx |- *; congruence. }
    rewrite Hm. now apply IH. }
  unfold split_copy. rewrite (re_split_no_match _ _ Hn). simpl.
  now rewrite Hb.
Qed.

Lemma split_blank_is_empty_witness :
  nonblank (nl :: str "   " ++ [nl]) = false /\
  split_sql_statements (nl :: str "   " ++ [nl]) = [].
Proof.
  split; [reflexivity|].
  exact (proj1 (split_blank_is_empty (quiet_world []) [] 0
                  (nl :: str "   " ++ [nl]) eq_refl)).
Defined.

(** ** Statements with a dollar-quoted body *)

Lemma not_dollar_no_dollar (s : text) :
  forallb not_dollar s = true -> no_dollar s.
Proof.
  intros H. apply Forall_forall. intros c Hc.
  apply (proj1 (forallb_forall _ _) H) in Hc.
  unfold not_dollar in Hc. now apply negb_true_iff, ascii_eqb_neq in Hc.
Qed.

Lemma forallb_not_contains (tag : text) (ls : list text) :
  forallb (fun l => negb (contains tag l)) ls = true ->
  Forall (fun l => contains tag l = false) ls.
Proof.
  intros H. apply Forall_forall. intros l Hl.
  apply (proj1 (forallb_forall _ _) H) in Hl. now apply negb_true_iff.
Qed.

(** Plain lines that do not end in a semicolon only fill the buffer. *)
Lemma split_loop_head (head : list text) :
  forall st, dollar_quote st = None ->
  forallb (fun l => plain_line l && negb (ends_statement l)) head = true ->
  split_loop st head =
  {| statements := statements st; current := current st ++ with_newlines head;
     dollar_quote := None |}.
Proof.
  induction head as [|l head IH]; intros st Hdq H.
  - destruct st; simpl in *. subst. now rewrite app_nil_r.
  - simpl in H. apply andb_prop in H as [Hl Hhead].
    apply andb_prop in Hl as [Hp He]. apply negb_true_iff in He.
    rewrite split_loop_cons, (split_step_plain _ _ Hdq Hp), He.
    rewrite IH by (simpl; auto). simpl.
    change (with_newlines (l :: head))
      with ((l ++ [nl]) ++ with_newlines head).
    now rewrite <- !app_assoc.
Qed.

(** The loop over the lines of one statement, from a state without an
    active tag: the statement is emitted whole and the state is fresh
    again. *)
Lemma split_loop_unit (u : sql_unit) (st : split_state) :
  dollar_quote st = None -> unit_ok u = true ->
  split_loop st (unit_lines u) =
  {| statements := statements st ++ [current st ++ with_newlines (unit_lines u)];
     current := []; dollar_quote := None |}.
Proof.
  intros Hdq H. destruct u as [ls|head pre name rest body closing].
  - now apply split_loop_ordinary.
  - cbn [unit_ok] in H.
    apply andb_prop in H as [H Hend]. apply andb_prop in H as [H Hclose].
    apply andb_prop in H as [H Hbody]. apply andb_prop in H as [H _].
    apply andb_prop in H as [H Hname]. apply andb_prop in H as [Hhead Hpre].
    apply not_dollar_no_dollar in Hpre, Hname.
    apply forallb_not_contains in Hbody.
    cbn [unit_lines].
    rewrite split_loop_app, (split_loop_head head st Hdq Hhead).
    rewrite split_loop_cons.
    assert (Hstep : forall s, dollar_quote s = None ->
      split_step s (pre ++ dollar_tag name ++ rest) =
      {| statements := statements s;
         current := current s ++ (pre ++ dollar_tag name ++ rest) ++ [nl];
         dollar_quote := Some (dollar_tag name) |}).
    { intros s Hs. unfold split_step, update_dollar_quote, dollar_tag.
      simpl. rewrite <- app_assoc. simpl.
      now rewrite (search_dollar_quote_first pre name rest Hpre Hname), Hs. }
    rewrite Hstep by reflexivity. cbn [statements current].
    rewrite split_loop_app.
    rewrite (split_loop_suppressed (dollar_tag name) body)
      by (reflexivity || exact Hbody).
    cbn [statements current dollar_quote].
    unfold split_loop. cbn [fold_left].
    unfold split_step, update_dollar_quote. cbn [statements current dollar_quote].
    pose proof (search_dollar_quote_contains name closing Hclose) as Hs.
    destruct (search_dollar_quote closing); [|congruence].
    fold (dollar_tag name). rewrite Hclose.
    unfold ends_statement in Hend. rewrite Hend.
    f_equal. f_equal. f_equal.
    rewrite !with_newlines_app.
    change (with_newlines ((pre ++ dollar_tag name ++ rest) :: body ++ [closing]))
      with (((pre ++ dollar_tag name ++ rest) ++ [nl])
            ++ with_newlines (body ++ [closing])).
    rewrite with_newlines_app.
    change (with_newlines [closing]) with ((closing ++ [nl]) ++ []).
    now rewrite app_nil_r, <- !app_assoc.
Qed.

Lemma split_loop_units (us : list sql_unit) :
  forall st, dollar_quote st = None -> current st = [] ->
  forallb unit_ok us = true ->
  split_loop st (flat_map unit_lines us) =
  {| statements := statements st
                   ++ map (fun u => with_newlines (unit_lines u)) us;
     current := []; dollar_quote := None |}.
Proof.
  induction us as [|u us IH]; intros st Hdq Hcur H.
  - destruct st; simpl in *; subst. now rewrite app_nil_r.
  - simpl in H. apply andb_prop in H as [Hu Hus].
    simpl flat_map.
    rewrite split_loop_app, (split_loop_unit u st Hdq Hu).
    rewrite IH by auto. simpl. rewrite Hcur. simpl.
    now rewrite <- app_assoc.
Qed.

Lemma unit_ok_lines (u : sql_unit) :
  unit_ok u = true ->
  unit_lines u <> [] /\
  forallb (fun l => negb (has_newline l)) (unit_lines u) = true.
Proof.
  destruct u as [ls|head pre name rest body closing]; intros H.
  - now apply ordinary_statement_lines.
  - split; [cbn [unit_lines]; now destruct head|].
    cbn [unit_ok] in H.
    apply andb_prop in H as [H _]. apply andb_prop in H as [H _].
    apply andb_prop in H as [H _]. now apply andb_prop in H as [_ H].
Qed.

(** X3. A text made of ordinary statements and of statements with a
    dollar-quoted body that opens on one line and closes on a later one,
    in any order, is split into exactly these statements: the semicolons
    at the line ends inside the bodies split nothing. *)
Theorem split_dollar_bodies (us : list sql_unit) :
  us <> [] -> forallb unit_ok us = true ->
  split_sql_statements (join_lines (flat_map unit_lines us))
  = map (fun u => with_newlines (unit_lines u)) us.
Proof.
  intros Hne H.
  assert (Hl2 : forallb (fun l => negb (has_newline l))
                  (flat_map unit_lines us) = true).
  { clear Hne. induction us as [|u us IH]; [reflexivity|].
    simpl in H. apply andb_prop in H as [Hu Hus].
    simpl. rewrite forallb_app, (proj2 (unit_ok_lines u Hu)). now apply IH. }
  assert (Hl1 : flat_map unit_lines us <> []).
  { destruct us as [|u us]; [easy|]. simpl in H.
    apply andb_prop in H as [Hu _].
    destruct (unit_ok_lines u Hu) as [Hn _]. simpl.
    destruct (unit_lines u); [easy|discriminate]. }
  unfold split_sql_statements.
  rewrite (split_lines_join _ Hl1 Hl2).
  now rewrite (split_loop_units _ split_init eq_refl eq_refl H).
Qed.

Lemma split_dollar_bodies_witness :
  let f := DollarBody [str "CREATE FUNCTION f() RETURNS int"]
             (str "    AS ") [] []
             [str "BEGIN"; str "  RETURN 1;"; str "END;"]
             (str "$$ LANGUAGE plpgsql;") in
  let us := [Ordinary [create_table]; f; Ordinary [str "SELECT f();"]] in
  forallb unit_ok us = true /\
  split_sql_statements (join_lines (flat_map unit_lines us))
  = map (fun u => with_newlines (unit_lines u)) us.
Proof.
  split; [reflexivity|].
  exact (split_dollar_bodies
           [Ordinary [create_table];
            DollarBody [str "CREATE FUNCTION f() RETURNS int"]
              (str "    AS ") [] []
              [str "BEGIN"; str "  RETURN 1;"; str "END;"]
              (str "$$ LANGUAGE plpgsql;");
            Ordinary [str "SELECT f();"]]
           ltac:(discriminate) eq_refl).
Defined.

(** ** A COPY part without the terminator of the pattern *)

Lemma copy_data_lines_before (lines : list text) :
  forall in_data,
  copy_data_lines in_data lines
  = if in_data then before_terminator lines
    else drop_leading_blank (before_terminator lines).
Proof.
  induction lines as [|l lines IH]; intros in_data; [now destruct in_data|].
  simpl. change [backslash; dot] with terminator_line.
  destruct (text_eqb (strip l) terminator_line); [now destruct in_data|].
  destruct in_data; simpl.
  - now rewrite IH.
  - destruct (nonblank l); now rewrite IH.
Qed.

Lemma find_terminator_suffix (a b : text) :
  find_terminator (a ++ b) = None -> find_terminator b = None.
Proof.
  induction a as [|c a IH]; [easy|]. simpl app. cbn [find_terminator].
  destruct (at_terminator (c :: a ++ b)); [discriminate|].
  destruct (find_terminator (a ++ b)) as [[p r]|]; [discriminate|].
  intros _. now apply IH.
Qed.

(** The text after the first semicolon of [y ++ ; r] is [r], when [y] holds
    no semicolon: the text after any semicolon is a suffix of it. *)
Lemma after_semicolon_suffix (y : text) :
  forall x r r', forallb not_semicolon y = true ->
  y ++ semicolon :: r = x ++ semicolon :: r' ->
  exists m, r = m ++ r'.
Proof.
  induction y as [|c y IH]; intros x r r' Hy H.
  - destruct x as [|d x]; simpl in H.
    + exists []. now injection H.
    + injection H as _ H. exists (x ++ [semicolon]).
      now rewrite <- app_assoc.
  - simpl in Hy. apply andb_prop in Hy as [Hc Hy].
    destruct x as [|d x]; simpl in H.
    + injection H as H _. subst c. discriminate.
    + injection H as _ H. now apply (IH x r r').
Qed.

Lemma ci_eqb_not_semicolon (x c : ascii) :
  ci_eqb x c = true -> not_semicolon x = true -> not_semicolon c = true.
Proof.
  intros H Hx. destruct (not_semicolon c) eqn:Hc; [reflexivity|].
  unfold not_semicolon in Hc. apply negb_false_iff, ascii_eqb_eq in Hc.
  subst c. exfalso. clear - H Hx.
  destruct x as [[] [] [] [] [] [] [] []]; vm_compute in H, Hx; congruence.
Qed.

Lemma copy_keyword_no_semicolon (kw : text) :
  List.length kw = 4 -> starts_with ci_eqb (str "COPY") kw = true ->
  forallb not_semicolon kw = true.
Proof.
  intros Hl H.
  destruct kw as [|a [|b [|c [|d [|e kw]]]]]; try discriminate Hl.
  simpl in H.
  apply andb_prop in H as [Ha H]. apply andb_prop in H as [Hb H].
  apply andb_prop in H as [Hc H]. apply andb_prop in H as [Hd _].
  simpl.
  rewrite (ci_eqb_not_semicolon _ _ Ha eq_refl),
          (ci_eqb_not_semicolon _ _ Hb eq_refl),
          (ci_eqb_not_semicolon _ _ Hc eq_refl),
          (ci_eqb_not_semicolon _ _ Hd eq_refl).
  reflexivity.
Qed.

(** A header match ends with a semicolon. *)
Lemma match_copy_header_semicolon (s header rest : text) :
  match_copy_header s = Some (header, rest) ->
  exists x, header = x ++ [semicolon].
Proof.
  unfold match_copy_header.
  destruct (starts_with ci_eqb (str "COPY") s); [|discriminate].
  destruct (drop_while not_semicolon (skipn 4 s)) as [|sc r] eqn:Hd;
    [discriminate|].
  destruct (copy_header_body (take_while not_semicolon (skipn 4 s)));
    [|discriminate].
  intros [= <- <-].
  apply drop_while_head in Hd. unfold not_semicolon in Hd.
  apply negb_false_iff, ascii_eqb_eq in Hd. subst sc.
  eexists. now rewrite app_assoc.
Qed.

Lemma matches_nowhere_suffixes (m : matcher) (s : text) :
  (forall a b, s = a ++ b -> m b = None) -> matches_nowhere m s = true.
Proof.
  induction s as [|c s IH]; intros H; simpl.
  - now rewrite (H [] [] eq_refl).
  - rewrite (H [] (c :: s) eq_refl). apply IH.
    intros a b ->. now apply (H (c :: a) b).
Qed.

(** Where the scan for the terminator fails after the header, the COPY
    pattern matches nowhere in the text. *)
Lemma copy_block_nowhere (kw body rest : text) :
  is_copy_header kw body = true -> find_terminator rest = None ->
  matches_nowhere match_copy_block (copy_header kw body ++ rest) = true.
Proof.
  intros Hh Hf. apply matches_nowhere_suffixes. intros a u Hu.
  unfold match_copy_block.
  destruct (match_copy_header u) as [[header r']|] eqn:Hm; [|reflexivity].
  destruct (match_copy_header_semicolon _ _ _ Hm) as [x ->].
  apply match_copy_header_split in Hm as [-> _].
  assert (Hy : forallb not_semicolon (kw ++ body) = true).
  { unfold is_copy_header in Hh.
    apply andb_prop in Hh as [Hh _]. apply andb_prop in Hh as [Hh _].
    apply andb_prop in Hh as [Hh Hb]. apply andb_prop in Hh as [Hl Hk].
    apply Nat.eqb_eq in Hl.
    now rewrite forallb_app, (copy_keyword_no_semicolon kw Hl Hk), Hb. }
  destruct (after_semicolon_suffix (kw ++ body) (a ++ x) rest r' Hy)
    as [m Hmr].
  { unfold copy_header in Hu. rewrite <- !app_assoc in Hu.
    rewrite <- !app_assoc. exact Hu. }
  subst rest. now rewrite (find_terminator_suffix m r' Hf).
Qed.

Lemma split_lines_rows (lines : list text) :
  forall l, has_newline l = false ->
  forallb (fun r => negb (has_newline r)) lines = true ->
  split_lines (l ++ rows_text lines) = l :: lines.
Proof.
  induction lines as [|r lines IH]; intros l Hl H.
  - unfold rows_text. simpl. rewrite app_nil_r. now apply split_lines_single.
  - simpl in H. apply andb_prop in H as [Hr Hlines].
    apply negb_true_iff in Hr.
    rewrite <- (app_nil_r (rows_text (r :: lines))), rows_text_cons.
    rewrite app_nil_r, (split_lines_app _ _ Hl).
    now rewrite (IH r Hr Hlines).
Qed.

(** X4. A text that starts with a one-line COPY header and in which the
    pattern finds no terminator after it (the terminator is missing, or
    is the last line without a newline after it, or has white space
    around it) is one part, executed as one COPY operation.  Its data are
    the lines after the header up to the first one that is the
    terminator once stripped, without the blank lines at their start;
    whatever follows that line is not executed at all. *)
Theorem copy_without_terminator
  (kw body : text) (lines : list text) :
  is_copy_header kw body = true ->
  forallb (fun l => negb (has_newline l)) lines = true ->
  find_terminator (rows_text lines) = None ->
  let header := copy_header kw body in
  let sql_content := header ++ rows_text lines in
  split_copy sql_content = [sql_content] /\
  forall w h c,
    execute_parts w h c (split_copy sql_content)
    = (copy_events w h c header
         (join_lines (drop_leading_blank (before_terminator lines))) ++ h,
       None).
Proof.
  intros Hh Hlines Hf header sql_content.
  assert (Hs : split_copy sql_content = [sql_content]).
  { apply re_split_no_match. now apply copy_block_nowhere. }
  split; [exact Hs|]. intros w h c. rewrite Hs.
  assert (Hc : is_copy_part sql_content = true).
  { unfold is_copy_part, sql_content, header.
    now rewrite (match_copy_header_exact kw body _ Hh). }
  cbn [execute_parts]. rewrite (is_copy_part_nonblank _ Hc), Hc. cbn [negb].
  assert (Hn : has_newline header = false).
  { unfold is_copy_header in Hh. apply andb_prop in Hh as [_ Hh].
    now apply negb_true_iff in Hh. }
  unfold execute_copy, copy_events, sql_content.
  rewrite (split_lines_rows lines header Hn Hlines). cbn [hd tl].
  rewrite (copy_data_lines_before lines false).
  now destruct (copy_raises w h c _ _).
Qed.

Lemma copy_without_terminator_witness :
  let lines := [[]; str "1,2"; str "3,4"; str "\. "; str "SELECT 2;"] in
  let sql_content := copy_t ++ rows_text lines in
  find_terminator (rows_text lines) = None /\
  split_copy sql_content = [sql_content] /\
  execute_parts (quiet_world []) [] 0 (split_copy sql_content)
  = ([EvCommit 0; EvCopy 0 copy_t (join_lines [str "1,2"; str "3,4"]) None],
     None).
Proof.
  split; [reflexivity|].
  pose proof (copy_without_terminator (str "COPY")
                (str " t (a, b) FROM stdin")
                [[]; str "1,2"; str "3,4"; str "\. "; str "SELECT 2;"]
                eq_refl eq_refl eq_refl) as H.
  cbv zeta in H. destruct H as [H1 H2]. split; [exact H1|].
  exact (H2 (quiet_world []) [] 0).
Defined.

(** ** The protocol of a run *)

Lemma execute_copy_trace (w : world) (h : history) (c : nat) (part : text) :
  runner_trace (Some c) true false h ->
  runner_trace (Some c) true false (execute_copy w h c part).
Proof.
  intros H. unfold execute_copy.
  destruct (copy_raises w h c _ _); now constructor.
Qed.

Lemma execute_statements_trace (w : world) (c : nat) (stmts : list text) :
  forall h, runner_trace (Some c) true false h ->
  runner_trace (Some c) true (raised (snd (execute_statements w h c stmts)))
    (fst (execute_statements w h c stmts)).
Proof.
  induction stmts as [|s stmts IH]; intros h H; [exact H|].
  cbn [execute_statements]. destruct (nonblank s); [|now apply IH].
  destruct (execute_raises w h c s) as [[msg|msg]|].
  - apply IH.
    pose proof (T_execute_db_error c h s msg H) as H'.
    unfold warning_events in H'. now destruct (already_exists msg).
  - now apply T_execute_other_error.
  - apply IH. now apply T_execute.
Qed.

Lemma execute_parts_trace (w : world) (c : nat) (parts : list text) :
  forall h, runner_trace (Some c) true false h ->
  runner_trace (Some c) true (raised (snd (execute_parts w h c parts)))
    (fst (execute_parts w h c parts)).
Proof.
  induction parts as [|p parts IH]; intros h H; [exact H|].
  cbn [execute_parts]. destruct (nonblank p); cbn [negb]; [|now apply IH].
  destruct (is_copy_part p).
  - apply IH. now apply execute_copy_trace.
  - pose proof (execute_statements_trace w c (split_sql_statements p) h H)
      as Hs.
    destruct (execute_statements w h c (split_sql_statements p))
      as [h' [e|]]; [exact Hs|]. now apply IH.
Qed.

Lemma execute_sql_statements_trace
  (w : world) (h : history) (c : nat) (sql_content : text) :
  runner_trace (Some c) true false h ->
  runner_trace (Some c) true
    (raised (snd (execute_sql_statements w h c sql_content)))
    (fst (execute_sql_statements w h c sql_content)).
Proof.
  intros H. unfold execute_sql_statements.
  pose proof (execute_parts_trace w c (split_copy sql_content)
                (EvCursor c :: h) (T_cursor c h H)) as Hp.
  destruct (execute_parts w (EvCursor c :: h) c (split_copy sql_content))
    as [h' [e|]]; [exact Hp|]. now apply T_cursor_close.
Qed.

Lemma close_if_open_trace (conn : option nat) (o : bool) (h : history) :
  runner_trace conn o false h -> (conn = None -> o = false) ->
  runner_trace conn false false (close_if_open conn h).
Proof.
  intros H Hn. destruct conn as [c|]; simpl.
  - now apply (T_close c o).
  - rewrite (Hn eq_refl) in H. exact H.
Qed.

Lemma connect_loop_trace (w : world) (parts : list text) :
  forall n h conn o, List.length parts <= n ->
  runner_trace conn o false h -> (conn = None -> o = false) ->
  exists o',
    runner_trace (tr_conn (connect_loop w h conn parts)) o'
      (raised (tr_raised (connect_loop w h conn parts)))
      (tr_history (connect_loop w h conn parts)).
Proof.
  intros n. revert parts.
  induction n as [|n IH]; intros parts h conn o Hlen H Hn.
  - destruct parts; [|simpl in Hlen; lia]. now exists o.
  - destruct parts as [|new_db [|sql_block parts]];
      [now exists o..|].
    simpl in Hlen. cbn [connect_loop].
    pose proof (close_if_open_trace conn o h H Hn) as H1.
    destruct (connect_raises w (close_if_open conn h) new_db) as [e|].
    + exists false. now apply T_connect_fail.
    + pose proof (T_print _ _ _ _ (connected_msg new_db)
                    (T_connect conn _ new_db H1)) as H2.
      destruct (nonblank sql_block).
      * pose proof (execute_sql_statements_trace w _ _ sql_block H2) as H3.
        destruct (execute_sql_statements w _ _ sql_block) as [h3 [e|]].
        -- now exists true.
        -- apply (IH parts h3 _ true); [lia|exact H3|discriminate].
      * apply (IH parts _ _ true); [lia|exact H2|discriminate].
Qed.

Lemma first_part_trace (w : world) (h : history) (part0 : text) :
  runner_trace None false false h ->
  exists o,
    runner_trace (tr_conn (first_part w h part0)) o
      (raised (tr_raised (first_part w h part0)))
      (tr_history (first_part w h part0)) /\
    (tr_conn (first_part w h part0) = None -> o = false).
Proof.
  intros H. unfold first_part. destruct (nonblank part0).
  - destruct (connect_raises w h DB_CONFIG_dbname) as [e|].
    + exists false. split; [now apply T_connect_fail|reflexivity].
    + pose proof (T_print _ _ _ _ (connected_msg DB_CONFIG_dbname)
                    (T_connect None _ DB_CONFIG_dbname H)) as H2.
      pose proof (execute_sql_statements_trace w _ _ part0 H2) as H3.
      destruct (execute_sql_statements w _ _ part0) as [h2 r].
      exists true. split; [exact H3|discriminate].
  - exists false. now split.
Qed.

Lemma try_body_trace (w : world) (h : history) (parts : list text) :
  runner_trace None false false h ->
  exists o,
    runner_trace (tr_conn (try_body w h parts)) o
      (raised (tr_raised (try_body w h parts)))
      (tr_history (try_body w h parts)).
Proof.
  intros H. unfold try_body.
  destruct (first_part_trace w h (hd [] parts) H) as (o & Hf & Hn).
  destruct (tr_raised (first_part w h (hd [] parts))) eqn:Hr.
  - exists o. now rewrite Hr.
  - now apply (connect_loop_trace w (tl parts) (List.length (tl parts))
                 _ _ o).
Qed.

(** Every run follows the protocol; when it returns [True], no exception
    has left the [try] block. *)
Lemma execute_sql_file_trace (w : world) (sql_file_path : text) :
  exists conn o a,
    runner_trace conn o a (fst (execute_sql_file w [] sql_file_path)) /\
    (snd (execute_sql_file w [] sql_file_path) = true -> a = false) /\
    (file_content w sql_file_path <> None ->
     a = negb (snd (execute_sql_file w [] sql_file_path))).
Proof.
  destruct (file_content w sql_file_path) as [content|] eqn:Hf.
  - rewrite (execute_sql_file_found w [] _ _ Hf). cbv zeta.
    set (h1 := [EvPrint (str "Reading SQL file: " ++ sql_file_path)]).
    assert (H1 : runner_trace None false false h1)
      by (apply T_print, T_start).
    destruct (try_body_trace w h1 (split_connect content) H1) as [o Ht].
    set (r := try_body w h1 (split_connect content)) in *.
    unfold fst, snd.
    pose proof (T_print _ _ _ _ (outcome_msg (tr_raised r)) Ht) as Hp.
    destruct (tr_conn r) as [c|]; simpl finally.
    + exists (Some c), false, (raised (tr_raised r)). split; [|split].
      * apply T_print. now apply (T_close c o).
      * unfold raised. now intros ->.
      * reflexivity.
    + exists None, o, (raised (tr_raised r)). split; [exact Hp|].
      unfold raised. split; [now intros ->|reflexivity].
  - rewrite (execute_sql_file_missing w [] _ Hf).
    exists None, false, false.
    split; [apply T_print, T_start|]. split; [reflexivity|easy].
Qed.

(** ** What the protocol gives *)

(** Commits and rollbacks, in a history that follows the protocol. *)
Lemma trace_accounts (conn : option nat) (o a : bool) (h : history) :
  runner_trace conn o a h ->
  count is_commit h = count is_success h /\
  count is_rollback h = count is_database_error h.
Proof.
  unfold count.
  induction 1 as [| ? ? ? ? ? _ [IH1 IH2] | ? ? ? ? _ [IH1 IH2]
                  | ? ? ? _ [IH1 IH2] | ? ? ? ? _ [IH1 IH2]
                  | ? ? _ [IH1 IH2] | ? ? _ [IH1 IH2] | ? ? ? _ [IH1 IH2]
                  | ? ? ? msg _ [IH1 IH2] | ? ? ? ? _ [IH1 IH2]
                  | ? ? ? ? _ [IH1 IH2] | ? ? ? ? e _ [IH1 IH2]];
    unfold warning_events; try destruct (already_exists msg);
    simpl; split; lia.
Qed.

(** X5. In every run, each statement and each COPY operation that does not
    raise is committed, and each statement that raises a
    [psycopg2.Error] is rolled back, and these are all the commits and
    rollbacks there are: a COPY operation that fails, and a statement
    that raises another exception, is neither committed nor rolled
    back. *)
Theorem commit_per_success (w : world) (sql_file_path : text) :
  let h := fst (execute_sql_file w [] sql_file_path) in
  count is_commit h = count is_success h /\
  count is_rollback h = count is_database_error h.
Proof.
  destruct (execute_sql_file_trace w sql_file_path) as (conn & o & a & H & _).
  exact (trace_accounts conn o a _ H).
Qed.

(** The open connections of a history that follows the protocol. *)
Lemma trace_open (conn : option nat) (o a : bool) (h : history) :
  runner_trace conn o a h ->
  ops_on_open h = true /\
  open_conns h = if o then match conn with Some c => [c] | None => [] end
                 else [].
Proof.
  induction 1 as [| ? ? ? ? ? _ [IH1 IH2] | c o ? ? _ [IH1 IH2]
                  | ? ? ? _ [IH1 IH2] | ? ? ? ? _ [IH1 IH2]
                  | ? ? _ [IH1 IH2] | ? ? _ [IH1 IH2] | ? ? ? _ [IH1 IH2]
                  | ? ? ? msg _ [IH1 IH2] | ? ? ? ? _ [IH1 IH2]
                  | ? ? ? ? _ [IH1 IH2] | ? ? ? ? e _ [IH1 IH2]];
    cbn [ops_on_open open_conns op_conn app];
    rewrite ?IH1, ?IH2, ?Nat.eqb_refl; try (split; reflexivity).
  - destruct o; simpl; rewrite ?Nat.eqb_refl; now split.
  - unfold warning_events. destruct (already_exists msg);
      cbn [ops_on_open open_conns op_conn app];
      rewrite ?IH1, ?IH2, ?Nat.eqb_refl; now split.
Qed.

(** X8. In every run, each operation on a connection (setting autocommit,
    opening or closing a cursor, executing a statement or a COPY,
    committing, rolling back) is made while that connection is open and
    no other is: nothing is ever sent over a connection that has been
    closed. *)
Theorem operations_on_open_connection (w : world) (sql_file_path : text) :
  ops_on_open (fst (execute_sql_file w [] sql_file_path)) = true.
Proof.
  destruct (execute_sql_file_trace w sql_file_path) as (conn & o & a & H & _).
  exact (proj1 (trace_open conn o a _ H)).
Qed.

Lemma trace_autocommit (conn : option nat) (o a : bool) (h : history) :
  runner_trace conn o a h ->
  autocommit_first h = true /\
  match h with EvConnect _ _ :: _ => False | _ => True end.
Proof.
  induction 1 as [| ? ? ? h ? _ [IH1 IH2] | ? ? ? h _ [IH1 IH2]
                  | ? h ? _ [IH1 IH2] | ? h ? ? _ [IH1 IH2]
                  | ? h _ [IH1 IH2] | ? h _ [IH1 IH2] | ? h ? _ [IH1 IH2]
                  | ? h ? msg _ [IH1 IH2] | ? h ? ? _ [IH1 IH2]
                  | ? h ? ? _ [IH1 IH2] | ? h ? ? e _ [IH1 IH2]];
    try (split; [|exact I]);
    try (cbn [autocommit_first]; rewrite IH1;
         destruct h as [|[] ?]; try reflexivity; contradiction).
  - reflexivity.
  - cbn [autocommit_first]. rewrite IH1, Nat.eqb_refl.
    destruct h as [|[] ?]; try reflexivity; contradiction.
  - unfold warning_events. destruct (already_exists msg);
      cbn [autocommit_first app]; rewrite IH1;
      destruct h as [|[] ?]; try reflexivity; contradiction.
Qed.

(** X9. In every run, the first thing done with a connection that has
    just been opened is to switch it to autocommit: in the history, every
    successful [connect] is followed at once by the setting of
    [autocommit] on that connection, before any cursor or statement. *)
Theorem autocommit_before_use (w : world) (sql_file_path : text) :
  let h := fst (execute_sql_file w [] sql_file_path) in
  autocommit_first h = true /\
  match h with EvConnect _ _ :: _ => False | _ => True end.
Proof.
  destruct (execute_sql_file_trace w sql_file_path) as (conn & o & a & H & _).
  exact (trace_autocommit conn o a _ H).
Qed.

Lemma trace_escape (conn : option nat) (o a : bool) (h : history) :
  runner_trace conn o a h ->
  if a then ended_by_exception h else escaped h = false.
Proof.
  induction 1 as [| ? ? a h msg _ IH | ? ? a h _ IH
                  | ? h ? _ IH | ? h ? ? _ IH
                  | ? h _ IH | ? h _ IH | ? h ? _ IH
                  | ? h ? msg _ IH | ? h ? ? _ IH
                  | ? h ? ? _ IH | ? h ? ? e _ IH];
    try exact IH.
  - reflexivity.
  - destruct a; [|exact IH].
    destruct IH as (fin & e & older & -> & He & Hf & Ho).
    now exists (EvPrint msg :: fin), e, older.
  - destruct a; [|exact IH].
    destruct IH as (fin & e & older & -> & He & Hf & Ho).
    now exists (EvClose c :: fin), e, older.
  - now exists [], (EvConnectFail db e), h.
  - unfold warning_events. now destruct (already_exists msg).
  - now exists [], (EvExecute c statement (Some (OtherError msg))), h.
Qed.

(** X7. The exception that leaves the [try] block ends the run: when a
    connection attempt fails, or a statement raises something other than
    [psycopg2.Error], the events after it in the history are only
    printing and closing (no further connection attempt, no further
    statement), there is no second such exception, and
    [execute_sql_file] returns [False]. *)
Theorem exception_ends_run (w : world) (sql_file_path : text) :
  escaped (fst (execute_sql_file w [] sql_file_path)) = true ->
  snd (execute_sql_file w [] sql_file_path) = false /\
  ended_by_exception (fst (execute_sql_file w [] sql_file_path)).
Proof.
  intros He.
  destruct (execute_sql_file_trace w sql_file_path)
    as (conn & o & a & H & Hs & _).
  pose proof (trace_escape conn o a _ H) as Ht.
  destruct a; [|congruence]. split; [|exact Ht].
  destruct (snd (execute_sql_file w [] sql_file_path)); [|reflexivity].
  now specialize (Hs eq_refl).
Qed.

Lemma exception_ends_run_witness :
  let w := unreachable_world two_databases (str "demo") in
  escaped (fst (execute_sql_file w [] flights_sql)) = true /\
  snd (execute_sql_file w [] flights_sql) = false /\
  ended_by_exception (fst (execute_sql_file w [] flights_sql)).
Proof.
  split; [reflexivity|].
  exact (exception_ends_run (unreachable_world two_databases (str "demo"))
           flights_sql eq_refl).
Defined.

(** ** Segments without COPY blocks *)

Lemma filter_all (A : Type) (p : A -> bool) (l : list A) :
  forallb p l = true -> filter p l = l.
Proof.
  induction l as [|x l IH]; [reflexivity|]. simpl. intros H.
  apply andb_prop in H as [Hx Hl]. now rewrite Hx, (IH Hl).
Qed.

(** X6. A segment in which the COPY pattern matches nowhere, and which does
    not start with a COPY header, is executed statement by statement in
    the order of the file: where no statement raises anything but
    [psycopg2.Error], the statements passed to [cursor.execute] are
    exactly those that [split_sql_statements] returns, in that order,
    whether they fail or not. *)
Theorem statements_run_in_order
  (w : world) (h : history) (c : nat) (sql_content : text) :
  matches_nowhere match_copy_block sql_content = true ->
  is_copy_part sql_content = false ->
  (forall hx s m, execute_raises w hx c s <> Some (OtherError m)) ->
  snd (execute_sql_statements w h c sql_content) = None /\
  executed (fst (execute_sql_statements w h c sql_content))
  = executed h ++ split_sql_statements sql_content.
Proof.
  intros Hn Hc Hw. unfold execute_sql_statements, split_copy.
  rewrite (re_split_no_match _ _ Hn). cbn [execute_parts].
  destruct (nonblank sql_content) eqn:Hb; cbn [negb].
  - rewrite Hc.
    destruct (execute_statements_all w c Hw (split_sql_statements sql_content)
                (EvCursor c :: h)) as [H1 H2].
    destruct (execute_statements w (EvCursor c :: h) c
                (split_sql_statements sql_content)) as [h' r].
    simpl in H1, H2. subst r. simpl. split; [reflexivity|].
    rewrite H2. f_equal. apply filter_all, split_statements_nonblank.
  - simpl. rewrite (split_sql_statements_blank _ Hb).
    now rewrite app_nil_r.
Qed.

Lemma statements_run_in_order_witness :
  let sql_content := join_lines [create_table; str "SELECT 1"; str "FROM t;";
                                 create_table] in
  let w := failing_world [] (DbError relation_exists) in
  executed (fst (execute_sql_statements w [] 0 sql_content))
  = [with_newlines [create_table];
     with_newlines [str "SELECT 1"; str "FROM t;"];
     with_newlines [create_table]].
Proof.
  refine (proj2 (statements_run_in_order
                   (failing_world [] (DbError relation_exists)) [] 0
                   (join_lines [create_table; str "SELECT 1"; str "FROM t;";
                                create_table])
                   eq_refl eq_refl _)).
  intros hx s m. discriminate.
Defined.

(** ** The parts of a split *)

Lemma cons_first_length (c : ascii) (parts : list text) :
  parts <> [] -> List.length (cons_first c parts) = List.length parts.
Proof. now destruct parts. Qed.

Lemma re_split_fuel_nonempty (m : matcher) (n : nat) (s : text) :
  re_split_fuel m n s <> [].
Proof.
  destruct n, s; simpl; try discriminate.
  destruct (m (a :: s)) as [[? ?]|]; [discriminate|].
  unfold cons_first. destruct (re_split_fuel m n s); discriminate.
Qed.

(** A split has an odd number of parts, and pairing the parts after the
    first leaves none over. *)
Lemma re_split_fuel_pairs (m : matcher) (n : nat) :
  forall s,
  List.length (re_split_fuel m n s)
  = 2 * List.length (segment_pairs (tl (re_split_fuel m n s))) + 1.
Proof.
  induction n as [|n IH]; intros s.
  - now destruct s.
  - destruct s as [|c s]; [reflexivity|]. cbn [re_split_fuel].
    destruct (m (c :: s)) as [[group rest]|].
    + specialize (IH rest).
      pose proof (re_split_fuel_nonempty m n rest) as Hne.
      destruct (re_split_fuel m n rest) as [|p ps]; [easy|].
      cbn [tl segment_pairs List.length] in IH |- *. lia.
    + specialize (IH s).
      pose proof (re_split_fuel_nonempty m n s) as Hne.
      destruct (re_split_fuel m n s) as [|p ps]; [easy|].
      exact IH.
Qed.

(** The groups of the matches are the parts at the odd positions. *)
Lemma re_split_fuel_groups (m : matcher) (q : text -> bool) :
  (forall s group rest, m s = Some (group, rest) -> q group = true) ->
  forall n s,
  forallb (fun p => q (fst p)) (segment_pairs (tl (re_split_fuel m n s)))
  = true.
Proof.
  intros Hq. induction n as [|n IH]; intros s.
  - now destruct s.
  - destruct s as [|c s]; [reflexivity|]. cbn [re_split_fuel].
    destruct (m (c :: s)) as [[group rest]|] eqn:Hm.
    + specialize (IH rest).
      pose proof (re_split_fuel_nonempty m n rest) as Hne.
      destruct (re_split_fuel m n rest) as [|p ps]; [easy|].
      cbn [tl segment_pairs forallb fst] in IH |- *.
      now rewrite (Hq _ _ _ Hm), IH.
    + specialize (IH s).
      pose proof (re_split_fuel_nonempty m n s) as Hne.
      destruct (re_split_fuel m n s) as [|p ps]; [easy|].
      exact IH.
Qed.

Lemma match_connect_name (s group rest : text) :
  match_connect s = Some (group, rest) ->
  negb (text_eqb group []) && all_word group = true.
Proof.
  unfold match_connect.
  destruct (starts_with ascii_eqb (str "\connect") s); [|discriminate].
  destruct (skipn 8 s) as [|x t] eqn:Hs; [discriminate|].
  destruct (is_space x); [|discriminate].
  pose proof (forallb_take_while is_word (drop_while is_space (x :: t))) as Hw.
  destruct (take_while is_word (drop_while is_space (x :: t))) as [|y name];
    [discriminate|].
  intros [= <- _]. exact Hw.
Qed.

(** X10. The split at the directives has an odd number of parts, so the
    test [i < len(parts) - 1] of the loop never fails: every directive
    has its segment, there are as many segments after the first as
    directives found, and the name of each is a non-empty run of word
    characters. *)
Theorem every_directive_has_a_segment (content : text) :
  List.length (split_connect content)
  = 2 * List.length (segment_pairs (tl (split_connect content))) + 1 /\
  List.length (segments content)
  = S (List.length (segment_pairs (tl (split_connect content)))) /\
  forallb (fun seg => negb (text_eqb (fst seg) []) && all_word (fst seg))
    (segment_pairs (tl (split_connect content))) = true.
Proof.
  split; [apply re_split_fuel_pairs|]. split; [reflexivity|].
  apply (re_split_fuel_groups match_connect
           (fun g => negb (text_eqb g []) && all_word g)).
  apply match_connect_name.
Qed.

(** ** The main program *)





(** ** Any number of directives *)

Lemma directives_text_head (dirs : list (text * text * text)) :
  directives_text dirs = []
  \/ exists t, directives_text dirs = backslash :: t.
Proof.
  destruct dirs as [|[[ws name] block] dirs]; [now left|right].
  unfold directives_text. simpl. eexists. reflexivity.
Qed.

Lemma ends_name_directives (block : text) (dirs : list (text * text * text)) :
  ends_name block = true -> ends_name (block ++ directives_text dirs) = true.
Proof.
  intros H. destruct (directives_text_head dirs) as [->|[t ->]].
  - now rewrite app_nil_r.
  - now apply ends_name_app.
Qed.

Lemma split_connect_directives (dirs : list (text * text * text)) :
  forall first,
  matches_nowhere match_connect first = true ->
  forallb directive_ok dirs = true ->
  split_connect (first ++ directives_text dirs)
  = first :: flat_map (fun d => match d with
                                | (ws, name, block) => [name; block]
                                end) dirs.
Proof.
  induction dirs as [|[[ws name] block] dirs IH]; intros first Hf H.
  - unfold directives_text. simpl. rewrite app_nil_r.
    now apply re_split_no_match.
  - simpl in H. apply andb_prop in H as [Hd Hdirs].
    apply andb_prop in Hd as [Hd He]. apply andb_prop in Hd as [Hd Hb].
    apply andb_prop in Hd as [Hd Hw]. apply andb_prop in Hd as [Hd Hn].
    apply andb_prop in Hd as [Hws Hs].
    assert (Hws' : ws <> []).
    { intros ->. discriminate. }
    assert (Hn' : name <> []).
    { intros ->. discriminate. }
    change (directives_text ((ws, name, block) :: dirs))
      with ((directive ws name ++ block) ++ directives_text dirs).
    rewrite <- app_assoc.
    rewrite (split_connect_directive first ws name) by
      (auto using ends_name_directives).
    now rewrite (IH block Hb Hdirs).
Qed.

Lemma segment_pairs_directives (dirs : list (text * text * text)) :
  segment_pairs (flat_map (fun d => match d with
                                    | (ws, name, block) => [name; block]
                                    end) dirs)
  = map (fun d => match d with (ws, name, block) => (name, block) end) dirs.
Proof.
  induction dirs as [|[[ws name] block] dirs IH]; [reflexivity|].
  simpl. now rewrite IH.
Qed.

(** X13. A file made of a first part and any number of directives, each
    followed by its text, with no other match of the pattern, has one
    segment for the configured database holding the first part, and
    then one segment for each directive, in order, holding its name and
    the text that follows it. *)
Theorem segments_of_directives
  (first : text) (dirs : list (text * text * text)) :
  matches_nowhere match_connect first = true ->
  forallb directive_ok dirs = true ->
  segments (first ++ directives_text dirs)
  = (DB_CONFIG_dbname, first)
    :: map (fun d => match d with (ws, name, block) => (name, block) end) dirs.
Proof.
  intros Hf H. unfold segments.
  rewrite (split_connect_directives dirs first Hf H). cbn [hd tl].
  now rewrite segment_pairs_directives.
Qed.

Lemma segments_of_directives_witness :
  let first := with_newlines [str "CREATE DATABASE demo;"] in
  let dirs := [(str " ", str "demo", nl :: with_newlines [str "SELECT 1;"]);
               (str "  ", str "other", []);
               ([nl], str "demo", nl :: with_newlines [str "SELECT 2;"])] in
  forallb directive_ok dirs = true /\
  segments (first ++ directives_text dirs)
  = [(DB_CONFIG_dbname, first);
     (str "demo", nl :: with_newlines [str "SELECT 1;"]);
     (str "other", []);
     (str "demo", nl :: with_newlines [str "SELECT 2;"])].
Proof.
  split; [reflexivity|].
  exact (segments_of_directives
           (with_newlines [str "CREATE DATABASE demo;"])
           [(str " ", str "demo", nl :: with_newlines [str "SELECT 1;"]);
            (str "  ", str "other", []);
            ([nl], str "demo", nl :: with_newlines [str "SELECT 2;"])]
           eq_refl eq_refl).
Defined.

(** ** The parts of the split at the COPY blocks *)

Lemma re_split_fuel_concat (m : matcher) :
  (forall s group rest, m s = Some (group, rest) -> s = group ++ rest) ->
  forall n s, List.concat (re_split_fuel m n s) = s.
Proof.
  intros Hm. induction n as [|n IH]; intros s.
  - destruct s; simpl; [reflexivity|now rewrite app_nil_r].
  - destruct s as [|c s]; [reflexivity|]. cbn [re_split_fuel].
    destruct (m (c :: s)) as [[group rest]|] eqn:He.
    + simpl. rewrite IH. symmetry. now apply Hm.
    + specialize (IH s).
      pose proof (re_split_fuel_nonempty m n s) as Hne.
      destruct (re_split_fuel m n s) as [|p ps]; [easy|].
      simpl in IH |- *. now rewrite IH.
Qed.

Lemma match_copy_block_split (s group rest : text) :
  match_copy_block s = Some (group, rest) -> s = group ++ rest.
Proof.
  unfold match_copy_block.
  destruct (match_copy_header s) as [[header r]|] eqn:Hh; [|discriminate].
  destruct (find_terminator r) as [[data r']|] eqn:Hf; [|discriminate].
  intros [= <- <-].
  apply match_copy_header_split in Hh as [-> _].
  apply find_terminator_split in Hf as [-> _].
  now rewrite app_assoc.
Qed.

(** What the pattern of the block captures starts with what the pattern
    of the header matches. *)
Lemma match_copy_block_is_copy_part (s group rest : text) :
  match_copy_block s = Some (group, rest) -> is_copy_part group = true.
Proof.
  unfold match_copy_block, is_copy_part.
  destruct (match_copy_header s) as [[header r]|] eqn:Hh; [|discriminate].
  destruct (find_terminator r) as [[data r']|] eqn:Hf; [|discriminate].
  intros [= <- _].
  unfold match_copy_header in Hh |- *.
  destruct (starts_with ci_eqb (str "COPY") s) eqn:Hs; [|discriminate].
  pose proof (starts_with_length _ _ _ Hs) as Hl.
  change (List.length (str "COPY")) with 4 in Hl.
  pose proof (firstn_skipn 4 s) as Hfs.
  assert (Hk : List.length (firstn 4 s) = 4) by (rewrite length_firstn; lia).
  assert (Hsk : starts_with ci_eqb (str "COPY") (firstn 4 s) = true).
  { clear - Hs. destruct s as [|a [|b [|c [|d s]]]];
      try (simpl in Hs; rewrite ?andb_false_r in Hs; discriminate).
    simpl in *. exact Hs. }
  pose proof (take_drop_while not_semicolon (skipn 4 s)) as Ht.
  pose proof (forallb_take_while not_semicolon (skipn 4 s)) as Hb.
  revert Hh Hfs Ht Hb Hk Hsk.
  generalize (firstn 4 s) as kw. generalize (skipn 4 s) as after.
  intros after kw Hh Hfs Ht Hb Hk Hsk.
  destruct (drop_while not_semicolon after) as [|sc r0] eqn:Hd;
    [discriminate|].
  destruct (copy_header_body (take_while not_semicolon after)) eqn:Hc;
    [|discriminate].
  injection Hh as <- _.
  rewrite <- !app_assoc. rewrite (starts_with_app _ _ _ _ Hsk).
  assert (Hskip : skipn 4 (kw ++ take_while not_semicolon after ++ [sc] ++ data)
                  = take_while not_semicolon after ++ sc :: data).
  { rewrite skipn_app, Hk, Nat.sub_diag. rewrite <- Hk at 1.
    now rewrite skipn_all. }
  rewrite Hskip.
  apply drop_while_head in Hd.
  rewrite (drop_while_skip _ _ _ (forallb_Forall_true _ _ Hb)).
  rewrite (take_while_skip _ _ _ (forallb_Forall_true _ _ Hb)).
  simpl. rewrite Hd. now rewrite app_nil_r, Hc.
Qed.

(** X14. The split of a segment at the COPY blocks loses no text: its
    parts, concatenated, are the segment.  There is an odd number of
    them, and each part at an odd position, which is what the pattern
    captured, is recognised as a COPY block by the loop and executed as
    one COPY operation, never split into statements. *)
Theorem copy_split_parts (sql_content : text) :
  List.concat (split_copy sql_content) = sql_content /\
  List.length (split_copy sql_content)
  = 2 * List.length (segment_pairs (tl (split_copy sql_content))) + 1 /\
  forallb (fun p => is_copy_part (fst p))
    (segment_pairs (tl (split_copy sql_content))) = true /\
  forall block w h c rest,
    In block (map fst (segment_pairs (tl (split_copy sql_content)))) ->
    execute_parts w h c (block :: rest)
    = execute_parts w (execute_copy w h c block) c rest.
Proof.
  assert (Hg : forallb (fun p => is_copy_part (fst p))
                 (segment_pairs (tl (split_copy sql_content))) = true).
  { apply (re_split_fuel_groups match_copy_block is_copy_part).
    apply match_copy_block_is_copy_part. }
  split; [apply re_split_fuel_concat, match_copy_block_split|].
  split; [apply re_split_fuel_pairs|]. split; [exact Hg|].
  intros block w h c rest Hin.
  apply in_map_iff in Hin as (p & <- & Hp).
  apply (proj1 (forallb_forall _ _) Hg) in Hp.
  cbn [execute_parts]. now rewrite (is_copy_part_nonblank _ Hp), Hp.
Qed.

(** ** A run in which nothing raises *)

Lemma calm_statements (w : world) (c : nat) (stmts : list text) :
  calm w -> forall h,
  snd (execute_statements w h c stmts) = None /\
  printed (fst (execute_statements w h c stmts)) = printed h.
Proof.
  intros (_ & He & _). induction stmts as [|s stmts IH]; intros h;
    [now split|].
  cbn [execute_statements]. destruct (nonblank s); [|apply IH].
  rewrite He. destruct (IH (EvCommit c :: EvExecute c s None :: h)) as [H1 H2].
  now split.
Qed.

Lemma calm_parts (w : world) (c : nat) (parts : list text) :
  calm w -> forall h,
  snd (execute_parts w h c parts) = None /\
  printed (fst (execute_parts w h c parts)) = printed h.
Proof.
  intros Hw. induction parts as [|p parts IH]; intros h; [now split|].
  cbn [execute_parts]. destruct (nonblank p); cbn [negb]; [|apply IH].
  destruct (is_copy_part p).
  - destruct (IH (execute_copy w h c p)) as [H1 H2]. split; [exact H1|].
    rewrite H2. unfold execute_copy.
    destruct Hw as (_ & _ & Hc). now rewrite Hc.
  - destruct (calm_statements w c (split_sql_statements p) Hw h) as [H1 H2].
    destruct (execute_statements w h c (split_sql_statements p)) as [h' r].
    simpl in H1, H2. subst r. destruct (IH h') as [H3 H4].
    split; [exact H3|congruence].
Qed.

Lemma calm_sql_statements (w : world) (h : history) (c : nat) (s : text) :
  calm w ->
  snd (execute_sql_statements w h c s) = None /\
  printed (fst (execute_sql_statements w h c s)) = printed h.
Proof.
  intros Hw. unfold execute_sql_statements.
  destruct (calm_parts w c (split_copy s) Hw (EvCursor c :: h)) as [H1 H2].
  destruct (execute_parts w (EvCursor c :: h) c (split_copy s)) as [h' r].
  simpl in H1, H2. subst r. now split.
Qed.

Lemma printed_close_if_open (conn : option nat) (h : history) :
  printed (close_if_open conn h) = printed h.
Proof. now destruct conn. Qed.

Lemma calm_connect_loop (w : world) (parts : list text) :
  calm w -> forall n h conn, List.length parts <= n ->
  let r := connect_loop w h conn parts in
  tr_raised r = None /\
  printed (tr_history r)
  = printed h ++ map connected_msg (map fst (segment_pairs parts)) /\
  (tr_conn r = None <-> conn = None /\ segment_pairs parts = []).
Proof.
  intros Hw n. revert parts.
  induction n as [|n IH]; intros parts h conn Hlen.
  - destruct parts; [|simpl in Hlen; lia]. simpl.
    rewrite app_nil_r. now repeat split.
  - destruct parts as [|new_db [|sql_block parts]];
      [simpl; rewrite app_nil_r; now repeat split..|].
    simpl in Hlen. cbn [connect_loop segment_pairs map fst].
    rewrite (proj1 Hw).
    set (c := fresh_conn (close_if_open conn h)).
    set (h2 := EvPrint (connected_msg new_db) :: EvAutocommit c
               :: EvConnect c new_db :: close_if_open conn h).
    assert (Hp2 : printed h2 = printed h ++ [connected_msg new_db]).
    { unfold h2. simpl. now rewrite printed_close_if_open. }
    assert (Hrest : forall h3, printed h3 = printed h2 ->
      let r := connect_loop w h3 (Some c) parts in
      tr_raised r = None /\
      printed (tr_history r)
      = printed h ++ connected_msg new_db
        :: map connected_msg (map fst (segment_pairs parts)) /\
      (tr_conn r = None <->
       conn = None /\ (new_db, sql_block) :: segment_pairs parts = [])).
    { intros h3 H3. destruct (IH parts h3 (Some c)) as (H1 & H2 & H4); [lia|].
      cbv zeta. split; [exact H1|]. split.
      - rewrite H2, H3, Hp2. now rewrite <- app_assoc.
      - split; [|now intros [_ ?]]. intros Hc. apply H4 in Hc.
        now destruct Hc. }
    destruct (nonblank sql_block).
    + destruct (calm_sql_statements w h2 c sql_block Hw) as [H1 H2].
      destruct (execute_sql_statements w h2 c sql_block) as [h3 r].
      simpl in H1, H2. subst r. now apply Hrest.
    + now apply Hrest.
Qed.

(** X12. When the file exists and nothing raises, [execute_sql_file]
    returns [True] and prints exactly: the line about the file being
    read, one line [Connected to database: ...] for the configured
    database if the first part is not blank and one for each directive,
    in order, the line of success, and, if it connected at all, the line
    [Connection closed.] *)
Theorem clean_run_output (w : world) (sql_file_path content : text) :
  calm w -> file_content w sql_file_path = Some content ->
  let run := execute_sql_file w [] sql_file_path in
  snd run = true /\
  printed (fst run)
  = (str "Reading SQL file: " ++ sql_file_path)
    :: map connected_msg (run_targets content)
    ++ (nl :: str "SQL file executed successfully!")
    :: match run_targets content with
       | [] => []
       | _ :: _ => [str "Connection closed."]
       end.
Proof.
  intros Hw Hf. rewrite (execute_sql_file_found w [] _ _ Hf). cbv zeta.
  set (h1 := [EvPrint (str "Reading SQL file: " ++ sql_file_path)]).
  unfold try_body, run_targets.
  set (parts := split_connect content).
  assert (Hfirst :
    let r := first_part w h1 (hd [] parts) in
    tr_raised r = None /\
    printed (tr_history r)
    = printed h1 ++ map connected_msg
        (if nonblank (hd [] parts) then [DB_CONFIG_dbname] else []) /\
    (tr_conn r = None <-> nonblank (hd [] parts) = false)).
  { unfold first_part. destruct (nonblank (hd [] parts)).
    - rewrite (proj1 Hw).
      destruct (calm_sql_statements w
                  (EvPrint (connected_msg DB_CONFIG_dbname)
                   :: EvAutocommit (fresh_conn h1)
                   :: EvConnect (fresh_conn h1) DB_CONFIG_dbname :: h1)
                  (fresh_conn h1) (hd [] parts) Hw) as [H1 H2].
      destruct (execute_sql_statements w _ _ (hd [] parts)) as [h2 r].
      simpl in H1, H2. subst r. cbv zeta. cbn [tr_raised tr_history tr_conn].
      split; [reflexivity|]. split; [exact H2|]. now split.
    - cbv zeta. simpl. now repeat split. }
  cbv zeta in Hfirst. destruct Hfirst as (Hr & Hp & Hc).
  rewrite Hr.
  destruct (calm_connect_loop w (tl parts) Hw (List.length (tl parts))
              (tr_history (first_part w h1 (hd [] parts)))
              (tr_conn (first_part w h1 (hd [] parts))) (Nat.le_refl _))
    as (Hr2 & Hp2 & Hc2).
  set (r := connect_loop w (tr_history (first_part w h1 (hd [] parts)))
              (tr_conn (first_part w h1 (hd [] parts))) (tl parts)) in *.
  rewrite Hr2. cbn [succeeded outcome_msg fst snd].
  split; [reflexivity|].
  assert (Hnone : tr_conn r = None <->
            (if nonblank (hd [] parts) then [DB_CONFIG_dbname] else [])
            ++ map fst (segment_pairs (tl parts)) = []).
  { rewrite Hc2, Hc. destruct (nonblank (hd [] parts)); split.
    - now intros [? _].
    - discriminate.
    - intros [_ ->]. reflexivity.
    - intros H. split; [reflexivity|].
      simpl in H. now destruct (segment_pairs (tl parts)). }
  revert Hnone.
  set (targets := (if nonblank (hd [] parts) then [DB_CONFIG_dbname] else [])
                  ++ map fst (segment_pairs (tl parts))).
  intros Hnone.
  assert (Hpr : printed (tr_history r)
                = (str "Reading SQL file: " ++ sql_file_path)
                  :: map connected_msg targets).
  { rewrite Hp2, Hp. unfold h1, targets. cbn [printed app].
    now rewrite map_app. }
  destruct (tr_conn r) as [c|]; cbn [finally printed]; rewrite Hpr.
  - destruct targets as [|t l]; [discriminate (proj2 Hnone eq_refl)|].
    cbn [app]. now rewrite <- !app_assoc.
  - rewrite (proj1 Hnone eq_refl). reflexivity.
Qed.

Lemma clean_run_output_witness :
  let run := execute_sql_file (quiet_world two_databases) [] flights_sql in
  snd run = true /\
  printed (fst run)
  = [str "Reading SQL file: flights.sql";
     str "Connected to database: postgres";
     str "Connected to database: demo";
     str "Connected to database: other";
     nl :: str "SQL file executed successfully!";
     str "Connection closed."].
Proof.
  refine (clean_run_output (quiet_world two_databases) flights_sql
            two_databases _ eq_refl).
  now repeat split.
Defined.

(** ** Cursors *)

(** The loop over the statements opens and closes no cursor. *)
Lemma cursors_statements (w : world) (c : nat) (stmts : list text) :
  forall h,
  let r := execute_statements w h c stmts in
  count is_cursor (fst r) = count is_cursor h /\
  count is_cursor_close (fst r) = count is_cursor_close h /\
  statement_escaped (fst r) = statement_escaped h || raised (snd r).
Proof.
  unfold count.
  induction stmts as [|s stmts IH]; intros h; cbn [execute_statements].
  - simpl. now rewrite orb_false_r.
  - destruct (nonblank s); [|apply IH].
    destruct (execute_raises w h c s) as [[msg|msg]|].
    + destruct (IH (EvRollback c
                    :: (if already_exists msg
                        then EvExecute c s (Some (DbError msg)) :: h
                        else EvPrint (str "Warning: " ++ msg)
                             :: EvExecute c s (Some (DbError msg)) :: h)))
        as (H1 & H2 & H3).
      cbv zeta in H1, H2, H3 |- *. rewrite H1, H2, H3.
      now destruct (already_exists msg).
    + simpl. now rewrite orb_true_r.
    + destruct (IH (EvCommit c :: EvExecute c s None :: h)) as (H1 & H2 & H3).
      cbv zeta in H1, H2, H3 |- *. now rewrite H1, H2, H3.
Qed.

Lemma cursors_parts (w : world) (c : nat) (parts : list text) :
  forall h,
  let r := execute_parts w h c parts in
  count is_cursor (fst r) = count is_cursor h /\
  count is_cursor_close (fst r) = count is_cursor_close h /\
  statement_escaped (fst r) = statement_escaped h || raised (snd r).
Proof.
  induction parts as [|p parts IH]; intros h; cbn [execute_parts].
  - simpl. now rewrite orb_false_r.
  - destruct (nonblank p); cbn [negb]; [|apply IH].
    destruct (is_copy_part p).
    + destruct (IH (execute_copy w h c p)) as (H1 & H2 & H3).
      cbv zeta in H1, H2, H3 |- *. rewrite H1, H2, H3.
      unfold execute_copy. now destruct (copy_raises w h c _ _).
    + pose proof (cursors_statements w c (split_sql_statements p) h) as Hs.
      destruct (execute_statements w h c (split_sql_statements p))
        as [h' [e|]]; [exact Hs|].
      cbv zeta in Hs. cbn [fst snd] in Hs. destruct Hs as (H1 & H2 & H3).
      destruct (IH h') as (H4 & H5 & H6). cbv zeta in H4, H5, H6 |- *.
      rewrite H4, H5, H6, H1, H2, H3. simpl. now rewrite orb_false_r.
Qed.

(** A segment opens one cursor and closes it unless a statement raised
    an exception that left the function. *)
Lemma cursors_sql_statements (w : world) (h : history) (c : nat) (s : text) :
  cursors_closed false h -> statement_escaped h = false ->
  let r := execute_sql_statements w h c s in
  cursors_closed (raised (snd r)) (fst r) /\
  statement_escaped (fst r) = raised (snd r).
Proof.
  unfold cursors_closed. intros Hc He. unfold execute_sql_statements.
  pose proof (cursors_parts w c (split_copy s) (EvCursor c :: h)) as Hp.
  destruct (execute_parts w (EvCursor c :: h) c (split_copy s)) as [h' [e|]];
    cbv zeta in Hp |- *; cbn [fst snd] in Hp |- *;
    destruct Hp as (H1 & H2 & H3); unfold count in *; simpl in *;
    rewrite ?H1, ?H2, ?H3, ?He; simpl; split; (lia || reflexivity).
Qed.

Lemma cursors_connect_loop (w : world) (parts : list text) :
  forall n h conn, List.length parts <= n ->
  cursors_closed false h -> statement_escaped h = false ->
  let r := connect_loop w h conn parts in
  cursors_closed (statement_escaped (tr_history r)) (tr_history r).
Proof.
  intros n. revert parts.
  induction n as [|n IH]; intros parts h conn Hlen Hc He.
  - destruct parts; [|simpl in Hlen; lia]. cbv zeta. simpl. now rewrite He.
  - destruct parts as [|new_db [|sql_block parts]];
      [cbv zeta; simpl; now rewrite He..|].
    simpl in Hlen. cbv zeta. cbn [connect_loop].
    assert (Hc1 : cursors_closed false (close_if_open conn h)
                  /\ statement_escaped (close_if_open conn h) = false).
    { now destruct conn. }
    destruct Hc1 as [Hc1 He1].
    destruct (connect_raises w (close_if_open conn h) new_db) as [e|].
    + cbn [tr_history].
      change (cursors_closed (statement_escaped (close_if_open conn h))
                (close_if_open conn h)).
      now rewrite He1.
    + set (h2 := EvPrint (connected_msg new_db)
                 :: EvAutocommit (fresh_conn (close_if_open conn h))
                 :: EvConnect (fresh_conn (close_if_open conn h)) new_db
                 :: close_if_open conn h).
      assert (Hc2 : cursors_closed false h2 /\ statement_escaped h2 = false).
      { split; [exact Hc1|exact He1]. }
      destruct Hc2 as [Hc2 He2].
      destruct (nonblank sql_block).
      * pose proof (cursors_sql_statements w h2
                      (fresh_conn (close_if_open conn h)) sql_block Hc2 He2)
          as Hs.
        destruct (execute_sql_statements w h2 _ sql_block) as [h3 [e|]];
          cbv zeta in Hs; cbn [fst snd] in Hs; destruct Hs as [H1 H2].
        -- cbn [tr_history]. now rewrite H2.
        -- apply IH; [lia|exact H1|exact H2].
      * apply IH; [lia|exact Hc2|exact He2].
Qed.

(** X15. In every run, each cursor that is opened is closed again, except
    the one in use when a statement raises an exception that is not a
    [psycopg2.Error]: that cursor is never closed. *)
Theorem cursors_are_closed (w : world) (sql_file_path : text) :
  let h := fst (execute_sql_file w [] sql_file_path) in
  count is_cursor h
  = count is_cursor_close h + (if statement_escaped h then 1 else 0).
Proof.
  cbv zeta. fold (cursors_closed
    (statement_escaped (fst (execute_sql_file w [] sql_file_path)))
    (fst (execute_sql_file w [] sql_file_path))).
  destruct (file_content w sql_file_path) as [content|] eqn:Hf.
  - rewrite (execute_sql_file_found w [] _ _ Hf). cbv zeta.
    set (h1 := [EvPrint (str "Reading SQL file: " ++ sql_file_path)]).
    assert (Ht : cursors_closed
                   (statement_escaped
                      (tr_history (try_body w h1 (split_connect content))))
                   (tr_history (try_body w h1 (split_connect content)))).
    { unfold try_body.
      assert (Hfirst :
        let r := first_part w h1 (hd [] (split_connect content)) in
        cursors_closed (statement_escaped (tr_history r)) (tr_history r) /\
        (tr_raised r = None -> statement_escaped (tr_history r) = false)).
      { unfold first_part. destruct (nonblank (hd [] (split_connect content))).
        - destruct (connect_raises w h1 DB_CONFIG_dbname) as [e|];
            [now split|].
          pose proof (cursors_sql_statements w
            (EvPrint (connected_msg DB_CONFIG_dbname)
             :: EvAutocommit (fresh_conn h1)
             :: EvConnect (fresh_conn h1) DB_CONFIG_dbname :: h1)
            (fresh_conn h1) (hd [] (split_connect content)) eq_refl eq_refl)
            as Hs.
          destruct (execute_sql_statements w _ _ (hd [] (split_connect content)))
            as [h2 r].
          cbv zeta in Hs |- *. cbn [fst snd tr_history tr_raised] in Hs |- *.
          destruct Hs as [H1 H2]. rewrite H2. split; [exact H1|].
          now intros ->.
        - now split. }
      cbv zeta in Hfirst. destruct Hfirst as [H1 H2].
      destruct (tr_raised (first_part w h1 (hd [] (split_connect content))));
        [exact H1|].
      specialize (H2 eq_refl).
      apply (cursors_connect_loop w _ (List.length (tl (split_connect content))));
        [lia| |exact H2].
      now rewrite H2 in H1. }
    unfold fst.
    destruct (tr_conn (try_body w h1 (split_connect content))); exact Ht.
  - now rewrite (execute_sql_file_missing w [] _ Hf).
Qed.

Lemma copy_split_parts_witness :
  let block := copy_block copy_t [str "1,2"] in
  let sql_content := with_newlines [str "SELECT 1;"] ++ block
                     ++ with_newlines [create_table] in
  let w := quiet_world [] in
  In block (map fst (segment_pairs (tl (split_copy sql_content)))) /\
  execute_parts w [] 0 [block; create_table]
  = execute_parts w (execute_copy w [] 0 block) 0 [create_table].
Proof.
  assert (Hin : In (copy_block copy_t [str "1,2"])
                  (map fst (segment_pairs (tl (split_copy
                     (with_newlines [str "SELECT 1;"]
                      ++ copy_block copy_t [str "1,2"]
                      ++ with_newlines [create_table])))))).
  { vm_compute. left. reflexivity. }
  split; [exact Hin|].
  exact (proj2 (proj2 (proj2 (copy_split_parts
           (with_newlines [str "SELECT 1;"] ++ copy_block copy_t [str "1,2"]
            ++ with_newlines [create_table]))))
           _ (quiet_world []) [] 0 [create_table] Hin).
Defined.
